(** * Capability registry, permission resolver and command executor

    A shallow embedding of [database.py], [registry.py],
    [utils/bot_handler.py] and [executor.py], followed by the properties of
    the command layer that are established on it.

    Modelling conventions.
    - A Python [str] is a [string]; a value that may be [None] is an
      [option].  Inside an f-string [None] prints as the text [None]
      ([py_str]).  What a JSON object holds under a key that the code reads
      is a [Field]: nothing, [null], or a value of the documented type;
      values of another JSON type than the documented one are left out.
    - JSON documents (capability parameters, step parameters, execution
      context, audit details) are values of [json].  Floating point numbers
      do not occur in the modelled paths and are left out.
    - Each SQLite table is the list of its rows in rowid order: an [INSERT]
      appends, a [SELECT] without [ORDER BY] followed by [fetchone()] yields
      the first row that satisfies the [WHERE] clause.  Comparing a column
      with a [NULL] parameter is never true.  An [INSERT] that violates a
      [UNIQUE] or [NOT NULL] constraint raises [IntegrityError] and writes
      nothing; apart from that, database I/O does not fail.
    - The standard library, sqlite3 and the HTTP library raise instances of
      [Exception] that print as a text: in a [py_result], [Raise e] carries
      [str] of the exception.  What a handler raises is arbitrary: a
      [BaseException] records whether it is an instance of [Exception]
      (what [except Exception] catches; [SystemExit] and
      [KeyboardInterrupt] are not) and what [str(e)] does, which is to
      return a text or to raise in turn.  Code that passes such an
      exception on has a [py_exec] result.
    - Handlers and the HTTP library are the outside world: a handler is a
      function of the invocations made so far and of its arguments, and
      calling it changes nothing in the database, the registry cache or the
      handler table. *)

From stdpp Require Import gmap strings list pretty sorting.

Open Scope string_scope.

(** ** Python values *)

#[local] Unset Elimination Schemes.
Inductive json : Type :=
| JNull
| JBool (b : bool)
| JInt (z : Z)
| JStr (s : string)
| JList (items : list json)
| JDict (entries : list (string * json)).
#[local] Set Elimination Schemes.

(** [str(x)] for a value that is a string or [None]. *)
Definition py_str (x : option string) : string := default "None" x.

(** Truthiness, as tested by [if x] / [not x] / [x or y]. *)
Definition str_truthy (s : string) : bool := negb (bool_decide (s = "")).

Definition opt_str_truthy (x : option string) : bool :=
  match x with Some s => str_truthy s | None => false end.

Definition json_truthy (j : json) : bool :=
  match j with
  | JNull => false
  | JBool b => b
  | JInt z => negb (bool_decide (z = 0%Z))
  | JStr s => str_truthy s
  | JList items => match items with [] => false | _ => true end
  | JDict entries => match entries with [] => false | _ => true end
  end.

(** [x or {}] for an optional JSON document. *)
Definition or_empty_dict (x : option json) : json :=
  match x with
  | Some j => if json_truthy j then j else JDict []
  | None => JDict []
  end.

(** [x or []] for an optional list. *)
Definition or_empty_list {A} (x : option (list A)) : list A := default [] x.

Definition opt_json (x : option string) : json :=
  match x with Some s => JStr s | None => JNull end.

(** The result of running Python code that may raise an [E]. *)
Inductive py_outcome (E A : Type) : Type :=
| Return (a : A)
| Raise (e : E).
Arguments Return {E A} a.
Arguments Raise {E A} e.

(** Code whose exceptions print as a text, kept as that text. *)
Abbreviation py_result := (py_outcome string).

(** An exception object, as far as the modelled code can tell one from
    another: [except Exception] tests the class, and [str(e)] calls the
    [__str__] method, which returns a text or raises. *)
Inductive BaseException : Type :=
| PyExc (instance_of_Exception : bool) (str : StrOutcome)
with StrOutcome : Type :=
| Text (message : string)
| StrRaises (raised : BaseException).

Definition is_Exception (e : BaseException) : bool :=
  match e with PyExc b _ => b end.

Definition exn_str (e : BaseException) : StrOutcome :=
  match e with PyExc _ s => s end.

(** An instance of [Exception] that prints as [message]. *)
Definition Exception (message : string) : BaseException := PyExc true (Text message).

(** Code that may end with any exception. *)
Abbreviation py_exec := (py_outcome BaseException).

(** [except Exception as e:] followed by a use of [str(e)]: the text the
    clause goes on with, or the exception that leaves the [try] statement,
    which is [e] itself when the clause does not catch it, and otherwise
    what [str(e)] raised inside the clause. *)
Definition caught_str (e : BaseException) : py_exec string :=
  if is_Exception e then
    match exn_str e with
    | Text message => Return message
    | StrRaises raised => Raise raised
    end
  else Raise e.

(** ** [json.dumps] with its default separators and [ensure_ascii] *)

Definition dquote : string := String (Ascii.ascii_of_nat 34) "".
Definition squote : string := String (Ascii.ascii_of_nat 39) "".
Definition backslash : string := String (Ascii.ascii_of_nat 92) "".

Definition hex_digit (n : nat) : string :=
  match String.get n "0123456789abcdef" with
  | Some c => String c ""
  | None => "0"
  end.

Definition escape_char (c : Ascii.ascii) : string :=
  let n := Ascii.nat_of_ascii c in
  if bool_decide (n = 34) then backslash ++ dquote
  else if bool_decide (n = 92) then backslash ++ backslash
  else if bool_decide (n = 10) then backslash ++ "n"
  else if bool_decide (n = 13) then backslash ++ "r"
  else if bool_decide (n = 9) then backslash ++ "t"
  else if bool_decide (n = 8) then backslash ++ "b"
  else if bool_decide (n = 12) then backslash ++ "f"
  else if ((32 <=? n) && (n <=? 126))%nat then String c ""
  else backslash ++ "u00" ++ hex_digit (n / 16) ++ hex_digit (n mod 16).

Fixpoint escape_str (s : string) : string :=
  match s with
  | "" => ""
  | String c rest => escape_char c ++ escape_str rest
  end.

Definition dumps_str (s : string) : string := dquote ++ escape_str s ++ dquote.

Fixpoint json_dumps (j : json) : string :=
  match j with
  | JNull => "null"
  | JBool b => if b then "true" else "false"
  | JInt z => pretty z
  | JStr s => dumps_str s
  | JList items => "[" ++ String.concat ", " (map json_dumps items) ++ "]"
  | JDict entries =>
      "{" ++ String.concat ", "
               (map (fun kv => dumps_str (fst kv) ++ ": " ++ json_dumps (snd kv))
                    entries) ++ "}"
  end.

(** Iterating over a Python string yields its one-character substrings. *)
Fixpoint str_chars (s : string) : list string :=
  match s with
  | "" => []
  | String c rest => String c "" :: str_chars rest
  end.

(** SQL [column = ?]: never true when the column or the parameter is NULL. *)
Definition sql_eq (column param : option string) : bool :=
  match column, param with
  | Some a, Some b => bool_decide (a = b)
  | _, _ => false
  end.

Definition sql_is_null (column : option string) : bool :=
  match column with None => true | Some _ => false end.

(** ** JSON objects read key by key

    What a JSON object holds under one key: nothing, [null], or a value. *)
Inductive Field (A : Type) : Type :=
| Missing
| Null
| Value (a : A).
Arguments Missing {A}.
Arguments Null {A}.
Arguments Value {A} a.

(** [d.get(key)] *)
Definition dict_get {A} (f : Field A) : option A :=
  match f with
  | Value a => Some a
  | Missing | Null => None
  end.

(** [d.get(key, default)]: the default stands in for a missing key only. *)
Definition dict_get_default {A} (fallback : A) (f : Field A) : option A :=
  match f with
  | Missing => Some fallback
  | Null => None
  | Value a => Some a
  end.

(** [d[key]]: [KeyError] prints as the [repr] of the key. *)
Definition dict_item {A} (key : string) (f : Field A) : py_result (option A) :=
  match f with
  | Missing => Raise (squote ++ key ++ squote)
  | Null => Return None
  | Value a => Return (Some a)
  end.

(** ** Steps of a stored command

    A step is a JSON object read with [step.get('bot_name')],
    [step.get('capability_id')] and [step.get('parameters', {})]: the two
    names may be missing or null ([None]), the parameters may be missing
    ([None]) or hold any JSON value, [null] included.  A name that is
    neither a string nor [null] is left out; with it the membership test
    and the SQL parameters of the lookups could fail as well. *)
Record Step := {
  step_bot_name : option string;
  step_capability_id : option string;
  step_parameters : option json
}.

(** * database.py *)
Module Database.

(** One row of [capabilities]; both JSON columns hold [json.dumps] text.
    The [id] and timestamp columns are never read by the modelled code. *)
Record CapabilityRow := {
  cap_bot_name : string;
  cap_capability_id : string;
  cap_description : string;
  cap_parameters : string;
  cap_permissions_required : string
}.

(** One row of [custom_commands].  The [steps] column stores
    [json.dumps(steps)] and is decoded again by [get_custom_command]; the
    row keeps the decoded list. *)
Record CommandRow := {
  cmd_command_name : string;
  cmd_description : string;
  cmd_steps : list Step;
  cmd_created_by : string;
  cmd_enabled : bool
}.

Record AuditRow := {
  log_action_type : string;
  log_user_id : option string;
  log_username : option string;
  log_details : string;
  log_success : bool
}.

(** One row of [permissions] (the [role] column is never written or read). *)
Record PermissionRow := {
  perm_user_id : string;
  perm_bot_name : option string;
  perm_capability_id : option string;
  perm_permission_level : string
}.

Record t := {
  capabilities : list CapabilityRow;
  custom_commands : list CommandRow;
  audit_logs : list AuditRow;
  permissions : list PermissionRow
}.

Definition empty : t :=
  {| capabilities := []; custom_commands := []; audit_logs := []; permissions := [] |}.

Definition same_capability_key (bot_name capability_id : string) (r : CapabilityRow) : bool :=
  bool_decide (cap_bot_name r = bot_name) && bool_decide (cap_capability_id r = capability_id).

(** [INSERT INTO capabilities ...].  [capability_id] and [description]
    may arrive as [None]: the [NOT NULL] constraint of their columns then
    raises [IntegrityError], like the [UNIQUE(bot_name, capability_id)]
    constraint, and [IntegrityError] is turned into [False]. *)
Definition register_capability (bot_name : string)
    (capability_id description : option string)
    (parameters : option json) (permissions_required : option (list string))
    (d : t) : bool * t :=
  match capability_id, description with
  | Some capability_id, Some description =>
      if existsb (same_capability_key bot_name capability_id) (capabilities d)
      then (false, d)
      else
        let row := {| cap_bot_name := bot_name;
                      cap_capability_id := capability_id;
                      cap_description := description;
                      cap_parameters := json_dumps (or_empty_dict parameters);
                      cap_permissions_required :=
                        json_dumps (JList (map JStr (or_empty_list permissions_required))) |} in
        (true, {| capabilities := capabilities d ++ [row];
                  custom_commands := custom_commands d;
                  audit_logs := audit_logs d;
                  permissions := permissions d |})
  | _, _ => (false, d)
  end.

(** [SELECT * FROM capabilities WHERE bot_name = ? AND capability_id = ?] *)
Definition get_capability (bot_name capability_id : option string) (d : t)
    : option CapabilityRow :=
  find (fun r => sql_eq (Some (cap_bot_name r)) bot_name
                 && sql_eq (Some (cap_capability_id r)) capability_id)
       (capabilities d).

(** [INSERT INTO custom_commands ...].  The [except sqlite3.IntegrityError]
    clause answers [False] for a name that is already taken ([UNIQUE]) and
    for a [description] that is [None] ([NOT NULL]) alike. *)
Definition save_custom_command (command_name : string) (description : option string)
    (steps : list Step) (created_by : string) (d : t) : bool * t :=
  match description with
  | None => (false, d)
  | Some description =>
      if existsb (fun r => bool_decide (cmd_command_name r = command_name))
           (custom_commands d)
      then (false, d)
      else
        let row := {| cmd_command_name := command_name;
                      cmd_description := description;
                      cmd_steps := steps;
                      cmd_created_by := created_by;
                      cmd_enabled := true |} in
        (true, {| capabilities := capabilities d;
                  custom_commands := custom_commands d ++ [row];
                  audit_logs := audit_logs d;
                  permissions := permissions d |})
  end.

(** [SELECT * FROM custom_commands WHERE command_name = ? AND enabled = 1] *)
Definition get_custom_command (command_name : string) (d : t) : option CommandRow :=
  find (fun r => bool_decide (cmd_command_name r = command_name) && cmd_enabled r)
       (custom_commands d).

(** [log_action]: the details are written as [json.dumps(details or {})]. *)
Definition log_action (action_type : string) (user_id username : option string)
    (details : option json) (success : bool) (d : t) : t :=
  let row := {| log_action_type := action_type;
                log_user_id := user_id;
                log_username := username;
                log_details := json_dumps (or_empty_dict details);
                log_success := success |} in
  {| capabilities := capabilities d;
     custom_commands := custom_commands d;
     audit_logs := audit_logs d ++ [row];
     permissions := permissions d |}.

(** [levels.get(level, 0)] *)
Definition level_rank (level : string) : nat :=
  if bool_decide (level = "read") then 1
  else if bool_decide (level = "execute") then 2
  else if bool_decide (level = "admin") then 3
  else 0.

Definition _permission_level_allows (user_level required_level : string) : bool :=
  (level_rank required_level <=? level_rank user_level)%nat.

(** The three [WHERE] clauses of [check_permission]. *)
Definition capability_grant (user_id : string) (bot_name capability_id : option string)
    (r : PermissionRow) : bool :=
  bool_decide (perm_user_id r = user_id)
  && sql_eq (perm_bot_name r) bot_name
  && sql_eq (perm_capability_id r) capability_id.

Definition bot_wide_grant (user_id : string) (bot_name : option string)
    (r : PermissionRow) : bool :=
  bool_decide (perm_user_id r = user_id)
  && sql_eq (perm_bot_name r) bot_name
  && sql_is_null (perm_capability_id r).

Definition global_grant (user_id : string) (r : PermissionRow) : bool :=
  bool_decide (perm_user_id r = user_id) && sql_is_null (perm_bot_name r).

Definition check_permission (user_id : string) (bot_name capability_id : option string)
    (permission_level : string) (d : t) : bool :=
  match find (capability_grant user_id bot_name capability_id) (permissions d) with
  | Some row => _permission_level_allows (perm_permission_level row) permission_level
  | None =>
    match find (bot_wide_grant user_id bot_name) (permissions d) with
    | Some row => _permission_level_allows (perm_permission_level row) permission_level
    | None =>
      match find (global_grant user_id) (permissions d) with
      | Some row => _permission_level_allows (perm_permission_level row) permission_level
      | None => false
      end
    end
  end.

Definition grant_permission (user_id permission_level : string)
    (bot_name capability_id : option string) (d : t) : t :=
  let row := {| perm_user_id := user_id;
                perm_bot_name := bot_name;
                perm_capability_id := capability_id;
                perm_permission_level := permission_level |} in
  {| capabilities := capabilities d;
     custom_commands := custom_commands d;
     audit_logs := audit_logs d;
     permissions := permissions d ++ [row] |}.

(** [ORDER BY bot_name, capability_id]: the two TEXT columns are compared
    byte by byte, the second one breaking ties of the first. *)
Definition capability_row_leb (r1 r2 : CapabilityRow) : bool :=
  match String.compare (cap_bot_name r1) (cap_bot_name r2) with
  | Lt => true
  | Gt => false
  | Eq => String.leb (cap_capability_id r1) (cap_capability_id r2)
  end.

Definition capability_row_le (r1 r2 : CapabilityRow) : Prop :=
  capability_row_leb r1 r2 = true.

Definition capability_row_le_dec (r1 r2 : CapabilityRow)
    : Decision (capability_row_le r1 r2) :=
  decide (capability_row_leb r1 r2 = true).

(** [get_all_capabilities]: [if bot_name:] selects the filtered query, so
    [None] and the empty string both list every row. *)
Definition get_all_capabilities (bot_name : option string) (d : t) : list CapabilityRow :=
  let rows :=
    if opt_str_truthy bot_name
    then List.filter (fun r => sql_eq (Some (cap_bot_name r)) bot_name) (capabilities d)
    else capabilities d in
  @merge_sort _ capability_row_le capability_row_le_dec rows.

End Database.

(** * utils/bot_handler.py *)

(** What a handler hands back: JSON data, or some other Python object
    (which [json.dumps] refuses with a [TypeError]). *)
Inductive HandlerValue :=
| JsonValue (j : json)
| OpaqueObject (type_name : string).

(** One invocation of a handler, as made by [_execute_step]. *)
Record Call := {
  call_bot_name : string;
  call_capability_id : option string;
  call_parameters : json;
  call_context : option json
}.

(** A user-supplied callable: its outcome may depend on the invocations
    made so far, and it may raise anything. *)
Definition Behaviour : Type :=
  list Call -> option string -> json -> option json -> py_exec HandlerValue.

Inductive Handler :=
| Function (f : Behaviour)
| MockBotHandler (bot_name : string)
| HTTPBotHandler (bot_name base_url : string) (api_key : option string) (timeout : Z)
| WebSocketBotHandler (bot_name : string)
| CustomHandler (execute_capability : Behaviour).

(** The [requests] library as seen by [HTTPBotHandler]. *)
Record HttpRequest := {
  req_url : string;
  req_headers : list (string * string);
  req_json : json;
  req_timeout : Z
}.

Inductive HttpReply :=
| RequestException (message : string)
| Response (status_code : nat) (reason : string) (body : py_result json).

Definition Requests : Type := list Call -> HttpRequest -> HttpReply.

Module BotHandler.

(** [s.rstrip('/')] *)
Fixpoint rstrip_slash (s : string) : string :=
  match s with
  | "" => ""
  | String c rest =>
      let rest' := rstrip_slash rest in
      if bool_decide (rest' = "") && bool_decide (c = Ascii.ascii_of_nat 47)
      then "" else String c rest'
  end.

(** [response.raise_for_status()] *)
Definition raise_for_status (url : string) (status_code : nat) (reason : string)
    : py_result unit :=
  if ((400 <=? status_code) && (status_code <? 500))%nat
  then Raise (pretty status_code ++ " Client Error: " ++ reason ++ " for url: " ++ url)
  else if ((500 <=? status_code) && (status_code <? 600))%nat
  then Raise (pretty status_code ++ " Server Error: " ++ reason ++ " for url: " ++ url)
  else Return tt.

Definition error_dict (message bot_name : string) (capability_id : option string) : json :=
  JDict [("status", JStr "error");
         ("error", JStr message);
         ("bot_name", JStr bot_name);
         ("capability_id", opt_json capability_id)].

Definition mock_execute_capability (bot_name : string) (capability_id : option string)
    (parameters : json) : json :=
  JDict [("status", JStr "success");
         ("message", JStr ("Mock execution of " ++ py_str capability_id));
         ("parameters", parameters);
         ("bot_name", JStr bot_name);
         ("capability_id", opt_json capability_id)].

(** [HTTPBotHandler.execute_capability]: every failure inside the [try]
    block is answered with a dictionary whose [status] is [error]. *)
Definition http_execute_capability (requests : option Requests) (history : list Call)
    (bot_name base_url : string) (api_key : option string) (timeout : Z)
    (capability_id : option string) (parameters : json) (context : option json) : json :=
  match requests with
  | None => error_dict "HTTP handler requires requests library" bot_name capability_id
  | Some post =>
      let url := rstrip_slash base_url ++ "/execute/" ++ py_str capability_id in
      let headers :=
        ("Content-Type", "application/json")
        :: (if opt_str_truthy api_key
            then [("Authorization", "Bearer " ++ py_str api_key)] else []) in
      let payload := JDict [("parameters", parameters);
                            ("context", or_empty_dict context)] in
      let request := {| req_url := url; req_headers := headers;
                        req_json := payload; req_timeout := timeout |} in
      match post history request with
      | RequestException message => error_dict message bot_name capability_id
      | Response status_code reason body =>
          match raise_for_status url status_code reason with
          | Raise message => error_dict message bot_name capability_id
          | Return _ =>
              match body with
              | Raise message => error_dict message bot_name capability_id
              | Return result =>
                  JDict [("status", JStr "success");
                         ("result", result);
                         ("bot_name", JStr bot_name);
                         ("capability_id", opt_json capability_id)]
              end
          end
      end
  end.

Definition websocket_execute_capability (bot_name : string)
    (capability_id : option string) : json :=
  error_dict "WebSocket handler not yet implemented" bot_name capability_id.

(** Calling the handler the way [_execute_step] does: a plain callable is
    applied, any other object has its [execute_capability] method called. *)
Definition invoke (h : Handler) (requests : option Requests) (history : list Call)
    (capability_id : option string) (parameters : json) (context : option json)
    : py_exec HandlerValue :=
  match h with
  | Function f => f history capability_id parameters context
  | MockBotHandler bot_name =>
      Return (JsonValue (mock_execute_capability bot_name capability_id parameters))
  | HTTPBotHandler bot_name base_url api_key timeout =>
      Return (JsonValue (http_execute_capability requests history bot_name base_url
                           api_key timeout capability_id parameters context))
  | WebSocketBotHandler bot_name =>
      Return (JsonValue (websocket_execute_capability bot_name capability_id))
  | CustomHandler execute_capability =>
      execute_capability history capability_id parameters context
  end.

End BotHandler.

(** * The running system

    The capability dictionaries held in the registry cache come in two
    shapes: the one built by [register_capability], whose [parameters] and
    [permissions_required] are a dictionary and a list, and [dict(row)] of a
    database row, where both are still the JSON text of the column. *)
Inductive ParametersField :=
| ParametersDict (j : json)
| ParametersText (text : string).

Inductive PermissionsField :=
| PermissionsList (levels : list string)
| PermissionsText (text : string).

Record Capability := {
  c_bot_name : string;
  c_capability_id : string;
  c_description : string;
  c_parameters : ParametersField;
  c_permissions_required : PermissionsField
}.

(** The [Database], the registry cache and the executor's handler table are
    shared objects; [requests] is the HTTP library ([None]: not installed)
    and [calls] records every handler invocation in order. *)
Record World := {
  db : Database.t;
  capabilities_cache : gmap string Capability;
  bot_handlers : gmap string Handler;
  requests : option Requests;
  calls : list Call
}.

Definition set_db (d : Database.t) (w : World) : World :=
  {| db := d; capabilities_cache := capabilities_cache w;
     bot_handlers := bot_handlers w; requests := requests w; calls := calls w |}.

Definition set_cache (c : gmap string Capability) (w : World) : World :=
  {| db := db w; capabilities_cache := c;
     bot_handlers := bot_handlers w; requests := requests w; calls := calls w |}.

Definition set_handlers (h : gmap string Handler) (w : World) : World :=
  {| db := db w; capabilities_cache := capabilities_cache w;
     bot_handlers := h; requests := requests w; calls := calls w |}.

Definition add_call (c : Call) (w : World) : World :=
  {| db := db w; capabilities_cache := capabilities_cache w;
     bot_handlers := bot_handlers w; requests := requests w; calls := calls w ++ [c] |}.

Definition log_action (action_type : string) (user_id username : option string)
    (details : option json) (success : bool) (w : World) : World :=
  set_db (Database.log_action action_type user_id username details success (db w)) w.

(** * registry.py *)
Module CapabilityRegistry.

(** [f"{bot_name}:{capability_id}"] *)
Definition cache_key (bot_name capability_id : option string) : string :=
  py_str bot_name ++ ":" ++ py_str capability_id.

(** [dict(row)] *)
Definition dict_of_row (r : Database.CapabilityRow) : Capability :=
  {| c_bot_name := Database.cap_bot_name r;
     c_capability_id := Database.cap_capability_id r;
     c_description := Database.cap_description r;
     c_parameters := ParametersText (Database.cap_parameters r);
     c_permissions_required := PermissionsText (Database.cap_permissions_required r) |}.

(** The cache entry and the audit entry are written only after the store
    accepted the row, which it does for no [None] argument. *)
Definition register_capability (bot_name : string)
    (capability_id description : option string)
    (parameters : option json) (permissions_required : option (list string))
    (w : World) : bool * World :=
  let '(success, d) :=
    Database.register_capability bot_name capability_id description
      parameters permissions_required (db w) in
  match success, capability_id, description with
  | true, Some capability_id, Some description =>
      let key := cache_key (Some bot_name) (Some capability_id) in
      let entry := {| c_bot_name := bot_name;
                      c_capability_id := capability_id;
                      c_description := description;
                      c_parameters := ParametersDict (or_empty_dict parameters);
                      c_permissions_required :=
                        PermissionsList (or_empty_list permissions_required) |} in
      let w1 := set_cache (<[key := entry]> (capabilities_cache w)) (set_db d w) in
      (true,
       log_action "capability_registered" None None
         (Some (JDict [("bot_name", JStr bot_name);
                       ("capability_id", JStr capability_id);
                       ("description", JStr description)]))
         true w1)
  | _, _, _ => (success, set_db d w)
  end.

Definition get_capability (bot_name capability_id : option string) (w : World)
    : option Capability * World :=
  let key := cache_key bot_name capability_id in
  match capabilities_cache w !! key with
  | Some cap => (Some cap, w)
  | None =>
      match Database.get_capability bot_name capability_id (db w) with
      | Some row =>
          let cap := dict_of_row row in
          (Some cap, set_cache (<[key := cap]> (capabilities_cache w)) w)
      | None => (None, w)
      end
  end.

(** The loop of [validate_command_steps], started at index [i]. *)
Fixpoint validate_from (i : nat) (steps : list Step) (w : World)
    : (bool * option string) * World :=
  match steps with
  | [] => ((true, None), w)
  | step :: rest =>
      let bot_name := step_bot_name step in
      let capability_id := step_capability_id step in
      if negb (opt_str_truthy bot_name) || negb (opt_str_truthy capability_id)
      then ((false, Some ("Step " ++ pretty (i + 1)%nat
                          ++ " missing bot_name or capability_id")), w)
      else
        match get_capability bot_name capability_id w with
        | (None, w1) =>
            ((false, Some ("Step " ++ pretty (i + 1)%nat ++ ": Capability "
                           ++ squote ++ py_str capability_id ++ squote
                           ++ " not found for bot "
                           ++ squote ++ py_str bot_name ++ squote)), w1)
        | (Some _, w1) => validate_from (S i) rest w1
        end
  end.

Definition validate_command_steps (steps : list Step) (w : World)
    : (bool * option string) * World :=
  validate_from 0 steps w.

(** [cache[f"{cap['bot_name']}:{cap['capability_id']}"] = cap] *)
Definition load_row (cache : gmap string Capability) (row : Database.CapabilityRow)
    : gmap string Capability :=
  <[cache_key (Some (Database.cap_bot_name row)) (Some (Database.cap_capability_id row))
    := dict_of_row row]> cache.

Definition _load_capabilities_from_db (w : World) : World :=
  set_cache (fold_left load_row (Database.get_all_capabilities None (db w))
               (capabilities_cache w)) w.

(** [CapabilityRegistry(database)]: an empty cache filled from the store. *)
Definition __init__ (w : World) : World :=
  _load_capabilities_from_db (set_cache ∅ w).

(** A capability descriptor as sent by a service or written in a file: a
    JSON object, each of whose keys may be missing, hold [null], or hold a
    value of the documented type. *)
Record Descriptor := {
  d_capability_id : Field string;
  d_description : Field string;
  d_parameters : Field json;
  d_permissions_required : Field (list string)
}.

(** The loop of [register_capabilities_from_api], with [count] so far. *)
Fixpoint register_from (bot_name : string) (capabilities : list Descriptor)
    (count : nat) (w : World) : nat * World :=
  match capabilities with
  | [] => (count, w)
  | cap :: rest =>
      let capability_id := dict_get (d_capability_id cap) in
      let description := dict_get_default "" (d_description cap) in
      let parameters := dict_get_default (JDict []) (d_parameters cap) in
      let permissions_required := dict_get_default [] (d_permissions_required cap) in
      if negb (opt_str_truthy capability_id)
      then register_from bot_name rest count w
      else
        match register_capability bot_name capability_id description
                parameters permissions_required w with
        | (true, w1) => register_from bot_name rest (count + 1) w1
        | (false, w1) => register_from bot_name rest count w1
        end
  end.

Definition register_capabilities_from_api (bot_name : string)
    (capabilities : list Descriptor) (w : World) : nat * World :=
  register_from bot_name capabilities 0 w.

(** The parsed content of a capability file. *)
Record CapabilityFile := {
  file_bot_name : Field string;
  file_capabilities : Field (list Descriptor)
}.

(** The loop of [load_capabilities_from_file]: [cap['capability_id']] and
    [cap['description']] raise [KeyError] when the key is missing, and the
    value returned by [register_capability] is not looked at. *)
Fixpoint register_file_capabilities (bot_name : string) (capabilities : list Descriptor)
    (w : World) : py_result unit * World :=
  match capabilities with
  | [] => (Return tt, w)
  | cap :: rest =>
      match dict_item "capability_id" (d_capability_id cap) with
      | Raise e => (Raise e, w)
      | Return capability_id =>
          match dict_item "description" (d_description cap) with
          | Raise e => (Raise e, w)
          | Return description =>
              register_file_capabilities bot_name rest
                (snd (register_capability bot_name capability_id description
                        (dict_get_default (JDict []) (d_parameters cap))
                        (dict_get_default [] (d_permissions_required cap)) w))
          end
      end
  end.

(** [files] is the file system: [None] where no file exists, otherwise what
    [json.load] makes of the file (it may raise).  A [capabilities] key
    holding [null] cannot be iterated over. *)
Definition load_capabilities_from_file (file_path : string)
    (files : string -> option (py_result CapabilityFile)) (w : World)
    : py_result unit * World :=
  match files file_path with
  | None => (Raise ("Capability file not found: " ++ file_path), w)
  | Some (Raise e) => (Raise e, w)
  | Some (Return data) =>
      match dict_get (file_bot_name data) with
      | Some bot_name =>
          if negb (str_truthy bot_name)
          then (Raise "Missing 'bot_name' in capability file", w)
          else
            match dict_get_default [] (file_capabilities data) with
            | None => (Raise "'NoneType' object is not iterable", w)
            | Some capabilities => register_file_capabilities bot_name capabilities w
            end
      | None => (Raise "Missing 'bot_name' in capability file", w)
      end
  end.

End CapabilityRegistry.

(** * executor.py *)
Module CommandExecutor.

(** The dictionary returned by [_execute_step]: [success] together with
    either [result] or [error]. *)
Record StepResult := {
  sr_success : bool;
  sr_result : option HandlerValue;
  sr_error : option string
}.

(** One entry of [results]. *)
Record StepOutcome := {
  o_step : nat;
  o_bot_name : option string;
  o_capability_id : option string;
  o_success : bool;
  o_result : HandlerValue;
  o_error : option string
}.

(** The dictionary returned by [execute_command]; a key that is absent
    from the dictionary is [None]. *)
Record ExecutionResult := {
  success : bool;
  steps_executed : option nat;
  total_steps : option nat;
  results : option (list StepOutcome);
  error : option string
}.

Definition register_bot_handler (bot_name : string) (handler : Handler) (w : World) : World :=
  set_handlers (<[bot_name := handler]> (bot_handlers w)) w.

Definition no_handler_result (bot_name : option string) : StepResult :=
  {| sr_success := false;
     sr_result := None;
     sr_error := Some ("No handler registered for bot "
                       ++ dquote ++ py_str bot_name ++ dquote) |}.

(** The membership test and the lookup are made on a string or [None]
    and cannot fail.  The [except Exception as e] clause catches instances
    of [Exception] only, and [str(e)] is evaluated inside it: what the
    clause does not catch and what [str(e)] raises both leave
    [_execute_step]. *)
Definition _execute_step (bot_name capability_id : option string) (parameters : json)
    (context : option json) (w : World) : py_exec StepResult * World :=
  match bot_name with
  | None => (Return (no_handler_result bot_name), w)
  | Some name =>
      match bot_handlers w !! name with
      | None => (Return (no_handler_result bot_name), w)
      | Some handler =>
          let w1 := add_call {| call_bot_name := name;
                                call_capability_id := capability_id;
                                call_parameters := parameters;
                                call_context := context |} w in
          match BotHandler.invoke handler (requests w) (calls w)
                  capability_id parameters context with
          | Return result =>
              (Return {| sr_success := true; sr_result := Some result; sr_error := None |}, w1)
          | Raise e =>
              match caught_str e with
              | Return message =>
                  (Return {| sr_success := false; sr_result := None;
                             sr_error := Some message |}, w1)
              | Raise escaped => (Raise escaped, w1)
              end
          end
      end
  end.

(** [if permissions_required:] and [for perm_level in permissions_required:] *)
Definition permissions_truthy (p : PermissionsField) : bool :=
  match p with
  | PermissionsList levels => match levels with [] => false | _ => true end
  | PermissionsText text => str_truthy text
  end.

Definition permissions_iter (p : PermissionsField) : list string :=
  match p with
  | PermissionsList levels => levels
  | PermissionsText text => str_chars text
  end.

Definition has_permission (user_id : string) (bot_name capability_id : option string)
    (cap : Capability) (w : World) : bool :=
  existsb (fun perm_level =>
             Database.check_permission user_id bot_name capability_id perm_level (db w))
          (permissions_iter (c_permissions_required cap)).

(** The step is refused when the capability asks for permissions and the
    caller holds none of them. *)
Definition permission_denied (user_id : string) (bot_name capability_id : option string)
    (cap : Capability) (w : World) : bool :=
  permissions_truthy (c_permissions_required cap)
  && negb (has_permission user_id bot_name capability_id cap w).

Definition failure_details (command_name : string) (step_num : nat) (error_msg : string)
    : option json :=
  Some (JDict [("command_name", JStr command_name);
               ("step", JInt (Z.of_nat step_num));
               ("error", JStr error_msg)]).

Definition failure (steps_done total : nat) (results : list StepOutcome)
    (error_msg : string) : ExecutionResult :=
  {| success := false;
     steps_executed := Some steps_done;
     total_steps := Some total;
     results := Some results;
     error := Some error_msg |}.

Definition outcome_of (step_num : nat) (bot_name capability_id : option string)
    (r : StepResult) : StepOutcome :=
  {| o_step := step_num;
     o_bot_name := bot_name;
     o_capability_id := capability_id;
     o_success := sr_success r;
     o_result := default (JsonValue JNull) (sr_result r);
     o_error := sr_error r |}.

(** How one iteration of the [for] loop ends: with a [return] from
    [execute_command], or by moving on to the next step. *)
Inductive LoopExit :=
| Exit (r : ExecutionResult)
| Next (results : list StepOutcome).

(** The [try] block of the loop body. *)
Definition dispatch (command_name : string) (user_id username : string)
    (context : option json) (total i : nat)
    (bot_name capability_id : option string) (parameters : json)
    (results : list StepOutcome) (w : World) : py_exec LoopExit * World :=
  let step_num := (i + 1)%nat in
  match _execute_step bot_name capability_id parameters context w with
  | (Raise e, w1) => (Raise e, w1)
  | (Return step_result, w1) =>
      let results1 :=
        (results ++ [outcome_of step_num bot_name capability_id step_result])%list in
      if negb (sr_success step_result) then
        let error_msg := "Step " ++ pretty step_num ++ " failed: "
                         ++ default "Unknown error" (sr_error step_result) in
        (Return (Exit (failure (i + 1) total results1 error_msg)),
         log_action "command_executed" (Some user_id) (Some username)
           (failure_details command_name step_num error_msg) false w1)
      else (Return (Next results1), w1)
  end.

(** The loop body with its [except Exception as e] clause, which builds
    the error message from [str(e)] before anything else. *)
Definition loop_body (command_name : string) (user_id username : string)
    (context : option json) (total i : nat) (step : Step)
    (results : list StepOutcome) (w : World) : py_exec LoopExit * World :=
  let step_num := (i + 1)%nat in
  let bot_name := step_bot_name step in
  let capability_id := step_capability_id step in
  let parameters := default (JDict []) (step_parameters step) in
  match CapabilityRegistry.get_capability bot_name capability_id w with
  | (None, w1) =>
      let error_msg := "Step " ++ pretty step_num ++ ": Capability "
                       ++ squote ++ py_str capability_id ++ squote
                       ++ " not found for bot " ++ squote ++ py_str bot_name ++ squote in
      (Return (Exit (failure i total results error_msg)),
       log_action "command_executed" (Some user_id) (Some username)
         (failure_details command_name step_num error_msg) false w1)
  | (Some capability, w1) =>
      if permission_denied user_id bot_name capability_id capability w1
      then
        let error_msg := "Step " ++ pretty step_num ++ ": Permission denied for "
                         ++ squote ++ py_str capability_id ++ squote in
        (Return (Exit (failure i total results error_msg)),
         log_action "command_executed" (Some user_id) (Some username)
           (failure_details command_name step_num error_msg) false w1)
      else
        match dispatch command_name user_id username context total i
                bot_name capability_id parameters results w1 with
        | (Raise e, w2) =>
            match caught_str e with
            | Return message =>
                let error_msg :=
                  "Step " ++ pretty step_num ++ " exception: " ++ message in
                (Return (Exit (failure (i + 1) total results error_msg)),
                 log_action "command_executed" (Some user_id) (Some username)
                   (failure_details command_name step_num error_msg) false w2)
            | Raise escaped => (Raise escaped, w2)
            end
        | finished => finished
        end
  end.

(** [for i, step in enumerate(steps)], entered at index [i]. *)
Fixpoint for_loop (command_name : string) (user_id username : string)
    (context : option json) (total i : nat) (steps : list Step)
    (results : list StepOutcome) (w : World) : py_exec LoopExit * World :=
  match steps with
  | [] => (Return (Next results), w)
  | step :: rest =>
      match loop_body command_name user_id username context total i step results w with
      | (Return (Next results1), w1) =>
          for_loop command_name user_id username context total (S i) rest results1 w1
      | stopped => stopped
      end
  end.

(** The [results] list as a JSON value; [json.dumps] raises [TypeError] on
    a handler result that is not JSON data, with the message kept here. *)
Definition outcome_json (o : StepOutcome) : py_result json :=
  match o_result o with
  | OpaqueObject type_name =>
      Raise ("Object of type " ++ type_name ++ " is not JSON serializable")
  | JsonValue j =>
      Return (JDict [("step", JInt (Z.of_nat (o_step o)));
                     ("bot_name", opt_json (o_bot_name o));
                     ("capability_id", opt_json (o_capability_id o));
                     ("success", JBool (o_success o));
                     ("result", j);
                     ("error", opt_json (o_error o))])
  end.

Fixpoint results_json (results : list StepOutcome) : py_result (list json) :=
  match results with
  | [] => Return []
  | o :: rest =>
      match outcome_json o with
      | Raise e => Raise e
      | Return j =>
          match results_json rest with
          | Raise e => Raise e
          | Return js => Return (j :: js)
          end
      end
  end.

(** Outside the loop nothing is caught: an exception that left the loop
    body, or the [TypeError] of [json.dumps] in the last [log_action],
    leaves [execute_command]. *)
Definition execute_command (command_name : string) (user_id username : string)
    (context : option json) (w : World) : py_exec ExecutionResult * World :=
  match Database.get_custom_command command_name (db w) with
  | None =>
      (Return {| success := false;
                 steps_executed := None;
                 total_steps := None;
                 results := None;
                 error := Some ("Command " ++ dquote ++ command_name ++ dquote
                                ++ " not found") |},
       log_action "command_executed" (Some user_id) (Some username)
         (Some (JDict [("command_name", JStr command_name);
                       ("error", JStr "Command not found")]))
         false w)
  | Some command =>
      let steps := Database.cmd_steps command in
      match for_loop command_name user_id username context (length steps) 0 steps [] w with
      | (Raise e, w1) => (Raise e, w1)
      | (Return (Exit r), w1) => (Return r, w1)
      | (Return (Next results1), w1) =>
          match results_json results1 with
          | Raise e => (Raise (Exception e), w1)
          | Return js =>
              (Return {| success := true;
                         steps_executed := Some (length steps);
                         total_steps := Some (length steps);
                         results := Some results1;
                         error := None |},
               log_action "command_executed" (Some user_id) (Some username)
                 (Some (JDict [("command_name", JStr command_name);
                               ("steps_executed", JInt (Z.of_nat (length steps)));
                               ("results", JList js)]))
                 true w1)
          end
      end
  end.

Definition execute_direct_step (bot_name capability_id : option string) (parameters : json)
    (user_id : string) (context : option json) (w : World) : py_exec StepResult * World :=
  match CapabilityRegistry.get_capability bot_name capability_id w with
  | (None, w1) =>
      (Return {| sr_success := false; sr_result := None;
                 sr_error := Some ("Capability " ++ dquote ++ py_str capability_id ++ dquote
                                   ++ " not found for bot "
                                   ++ dquote ++ py_str bot_name ++ dquote) |}, w1)
  | (Some capability, w1) =>
      if permission_denied user_id bot_name capability_id capability w1
      then (Return {| sr_success := false; sr_result := None;
                      sr_error := Some "Permission denied" |}, w1)
      else _execute_step bot_name capability_id parameters context w1
  end.

End CommandExecutor.

(** * Sample systems *)

Definition empty_world : World :=
  {| db := Database.empty;
     capabilities_cache := ∅;
     bot_handlers := ∅;
     requests := None;
     calls := [] |}.

Definition set_requests (r : option Requests) (w : World) : World :=
  {| db := db w; capabilities_cache := capabilities_cache w;
     bot_handlers := bot_handlers w; requests := r; calls := calls w |}.

Definition store_command (command_name : string) (steps : list Step) (w : World) : World :=
  set_db (snd (Database.save_custom_command command_name (Some "") steps "admin" (db w))) w.

Definition mk_step (bot_name capability_id : string) : Step :=
  {| step_bot_name := Some bot_name;
     step_capability_id := Some capability_id;
     step_parameters := Some (JDict []) |}.

(** A service reached over HTTP, followed by a mock service; [net] is the
    HTTP library the system runs with. *)
Definition unreachable : Requests := fun _ _ => RequestException "Connection refused".

Definition server_error : Requests :=
  fun _ _ => Response 500 "Internal Server Error" (Return JNull).

Definition malformed_body : Requests :=
  fun _ _ => Response 200 "OK" (Raise "Expecting value: line 1 column 1 (char 0)").

Definition http_world (net : option Requests) : World :=
  let w0 := set_requests net empty_world in
  let w1 := snd (CapabilityRegistry.register_capability "svc" (Some "ping") (Some "Ping") None None w0) in
  let w2 := snd (CapabilityRegistry.register_capability "notes" (Some "record") (Some "Record") None None w1) in
  let w3 := CommandExecutor.register_bot_handler "svc"
              (HTTPBotHandler "svc" "http://svc.local/" None 10) w2 in
  let w4 := CommandExecutor.register_bot_handler "notes" (MockBotHandler "notes") w3 in
  store_command "sync" [mk_step "svc" "ping"; mk_step "notes" "record"] w4.

(** Three services; the handler bound to [beta] is a plain function that
    raises.  [deploy] runs one step on each, [broken] names a capability
    that was never registered, and [guarded] one that asks for the [admin]
    level, which nobody has been granted. *)
Definition failing_function : Behaviour := fun _ _ _ _ => Raise (Exception "boom").

Definition pipeline_world : World :=
  let w1 := snd (CapabilityRegistry.register_capability "alpha" (Some "prepare") (Some "Prepare")
                   None None empty_world) in
  let w2 := snd (CapabilityRegistry.register_capability "beta" (Some "apply") (Some "Apply")
                   None None w1) in
  let w3 := snd (CapabilityRegistry.register_capability "gamma" (Some "finish") (Some "Finish")
                   None None w2) in
  let w4 := CommandExecutor.register_bot_handler "alpha" (MockBotHandler "alpha") w3 in
  let w5 := CommandExecutor.register_bot_handler "beta" (Function failing_function) w4 in
  let w6 := CommandExecutor.register_bot_handler "gamma" (MockBotHandler "gamma") w5 in
  let w7 := snd (CapabilityRegistry.register_capability "alpha" (Some "secure") (Some "Secure")
                   None (Some ["admin"]) w6) in
  store_command "guarded" [mk_step "alpha" "prepare"; mk_step "alpha" "secure"]
    (store_command "broken" [mk_step "alpha" "prepare"; mk_step "alpha" "vanished"]
       (store_command "deploy"
          [mk_step "alpha" "prepare"; mk_step "beta" "apply"; mk_step "gamma" "finish"]
          w7)).

(** Runs of the sample commands, and what they returned. *)
Definition loop_results (x : py_exec CommandExecutor.LoopExit * World)
    : list CommandExecutor.StepOutcome :=
  match fst x with
  | Return (CommandExecutor.Next acc) => acc
  | _ => []
  end.

Definition returned_result (x : py_exec CommandExecutor.ExecutionResult * World)
    : CommandExecutor.ExecutionResult :=
  match fst x with
  | Return r => r
  | Raise _ => CommandExecutor.failure 0 0 [] ""
  end.

Definition deploy_run : py_exec CommandExecutor.ExecutionResult * World :=
  CommandExecutor.execute_command "deploy" "42" "ann" None pipeline_world.

Definition deploy_first_step : py_exec CommandExecutor.LoopExit * World :=
  CommandExecutor.for_loop "deploy" "42" "ann" None 3 0
    [mk_step "alpha" "prepare"] [] pipeline_world.


Definition deploy_command : Database.CommandRow :=
  {| Database.cmd_command_name := "deploy";
     Database.cmd_description := "";
     Database.cmd_steps :=
       [mk_step "alpha" "prepare"; mk_step "beta" "apply"; mk_step "gamma" "finish"];
     Database.cmd_created_by := "admin";
     Database.cmd_enabled := true |}.




(** The second step of [deploy]: the world once its capability is resolved,
    and once it has been dispatched. *)
Definition deploy_resolved : World :=
  snd (CapabilityRegistry.get_capability (Some "beta") (Some "apply")
         (snd deploy_first_step)).



(** The cache entry and the table row that a successful
    [register_capability] creates. *)
Definition registered_entry (bot_name capability_id description : string)
    (parameters : option json) (permissions_required : option (list string)) : Capability :=
  {| c_bot_name := bot_name;
     c_capability_id := capability_id;
     c_description := description;
     c_parameters := ParametersDict (or_empty_dict parameters);
     c_permissions_required := PermissionsList (or_empty_list permissions_required) |}.

Definition registered_row (bot_name capability_id description : string)
    (parameters : option json) (permissions_required : option (list string))
    : Database.CapabilityRow :=
  {| Database.cap_bot_name := bot_name;
     Database.cap_capability_id := capability_id;
     Database.cap_description := description;
     Database.cap_parameters := json_dumps (or_empty_dict parameters);
     Database.cap_permissions_required :=
       json_dumps (JList (map JStr (or_empty_list permissions_required))) |}.

(** Two different pairs whose names contain a colon. *)
Definition colon_world : World :=
  let w1 := snd (CapabilityRegistry.register_capability "a:b" (Some "c") (Some "first") None None
                   empty_world) in
  snd (CapabilityRegistry.register_capability "a" (Some "b:c") (Some "second") None None w1).

(** Permission tables used below. *)
Definition capability_read_grant (user bot cap : string) : Database.PermissionRow :=
  {| Database.perm_user_id := user;
     Database.perm_bot_name := Some bot;
     Database.perm_capability_id := Some cap;
     Database.perm_permission_level := "read" |}.

Definition bot_admin_grant (user bot : string) : Database.PermissionRow :=
  {| Database.perm_user_id := user;
     Database.perm_bot_name := Some bot;
     Database.perm_capability_id := None;
     Database.perm_permission_level := "admin" |}.

Definition two_grants : Database.t :=
  Database.grant_permission "u1" "admin" (Some "weather") None
    (Database.grant_permission "u1" "read" (Some "weather") (Some "forecast")
       Database.empty).

(** The same two grants stored after a capability-scoped [admin] grant. *)
Definition three_grants : Database.t :=
  Database.grant_permission "u1" "admin" (Some "weather") None
    (Database.grant_permission "u1" "read" (Some "weather") (Some "forecast")
       (Database.grant_permission "u1" "admin" (Some "weather") (Some "forecast")
          Database.empty)).

(** * Vocabulary of the further properties *)

(** A permission row that matches the caller in one of the three tiers. *)
Definition any_grant (user_id : string) (bot_name capability_id : option string)
    (r : Database.PermissionRow) : bool :=
  Database.capability_grant user_id bot_name capability_id r
  || Database.bot_wide_grant user_id bot_name r
  || Database.global_grant user_id r.

(** Whether a grant stored with scope ([scope_bot], [scope_cap]) is found
    by a check for ([bot_name], [capability_id]). *)
Definition scope_covers (scope_bot scope_cap : option string)
    (bot_name capability_id : string) : bool :=
  match scope_bot with
  | None => true
  | Some b =>
      bool_decide (b = bot_name)
      && match scope_cap with
         | None => true
         | Some c => bool_decide (c = capability_id)
         end
  end.

(** The two uniqueness constraints of the schema. *)
Definition unique_capabilities (d : Database.t) : Prop :=
  NoDup (map (fun r => (Database.cap_bot_name r, Database.cap_capability_id r))
           (Database.capabilities d)).

Definition unique_commands (d : Database.t) : Prop :=
  NoDup (map Database.cmd_command_name (Database.custom_commands d)).

(** A descriptor that has both keys [load_capabilities_from_file] reads
    with [cap[...]]; either may hold [null]. *)
Definition descriptor_complete (cap : CapabilityRegistry.Descriptor) : Prop :=
  CapabilityRegistry.d_capability_id cap <> Missing
  /\ CapabilityRegistry.d_description cap <> Missing.

(** A descriptor whose [capability_id] and [description] both hold a
    string, which is what the [NOT NULL] columns of the store ask for. *)
Definition descriptor_has_values (cap : CapabilityRegistry.Descriptor) : bool :=
  match CapabilityRegistry.d_capability_id cap, CapabilityRegistry.d_description cap with
  | Value _, Value _ => true
  | _, _ => false
  end.

(** A descriptor that [register_capabilities_from_api] can register: its
    [capability_id] is a non-empty string and its [description], if the
    key is there, is not [null]. *)
Definition api_registrable (cap : CapabilityRegistry.Descriptor) : bool :=
  opt_str_truthy (dict_get (CapabilityRegistry.d_capability_id cap))
  && match CapabilityRegistry.d_description cap with
     | Null => false
     | Missing | Value _ => true
     end.

(** A capability file whose second descriptor has no description, and
    whose first one is followed by a descriptor with a [null] one. *)
Definition forecast_descriptor : CapabilityRegistry.Descriptor :=
  {| CapabilityRegistry.d_capability_id := Value "forecast";
     CapabilityRegistry.d_description := Value "Forecast";
     CapabilityRegistry.d_parameters := Missing;
     CapabilityRegistry.d_permissions_required := Missing |}.

Definition nameless_descriptor : CapabilityRegistry.Descriptor :=
  {| CapabilityRegistry.d_capability_id := Value "alerts";
     CapabilityRegistry.d_description := Missing;
     CapabilityRegistry.d_parameters := Missing;
     CapabilityRegistry.d_permissions_required := Missing |}.

Definition null_descriptor : CapabilityRegistry.Descriptor :=
  {| CapabilityRegistry.d_capability_id := Value "radar";
     CapabilityRegistry.d_description := Null;
     CapabilityRegistry.d_parameters := Null;
     CapabilityRegistry.d_permissions_required := Missing |}.

(** Descriptors as a service may send them: a [null] description, no
    description, a [null] id, and [null] parameters and permissions. *)
Definition discovered_descriptors : list CapabilityRegistry.Descriptor :=
  [ {| CapabilityRegistry.d_capability_id := Value "x";
       CapabilityRegistry.d_description := Null;
       CapabilityRegistry.d_parameters := Missing;
       CapabilityRegistry.d_permissions_required := Missing |};
    {| CapabilityRegistry.d_capability_id := Value "y";
       CapabilityRegistry.d_description := Missing;
       CapabilityRegistry.d_parameters := Missing;
       CapabilityRegistry.d_permissions_required := Missing |};
    {| CapabilityRegistry.d_capability_id := Null;
       CapabilityRegistry.d_description := Value "z";
       CapabilityRegistry.d_parameters := Missing;
       CapabilityRegistry.d_permissions_required := Missing |};
    {| CapabilityRegistry.d_capability_id := Value "x2";
       CapabilityRegistry.d_description := Value "ok";
       CapabilityRegistry.d_parameters := Null;
       CapabilityRegistry.d_permissions_required := Null |} ].

Definition weather_file : CapabilityRegistry.CapabilityFile :=
  {| CapabilityRegistry.file_bot_name := Value "weather";
     CapabilityRegistry.file_capabilities :=
       Value [forecast_descriptor; null_descriptor; nameless_descriptor;
              forecast_descriptor] |}.

Definition sample_files (path : string) : option (py_result CapabilityRegistry.CapabilityFile) :=
  if bool_decide (path = "weather.json") then Some (Return weather_file) else None.

(** A step that names a bot and a capability which the cache or the store
    of [w] knows. *)
Definition step_resolvable (w : World) (step : Step) : Prop :=
  opt_str_truthy (step_bot_name step) = true
  /\ opt_str_truthy (step_capability_id step) = true
  /\ (is_Some (capabilities_cache w
                 !! CapabilityRegistry.cache_key (step_bot_name step)
                      (step_capability_id step))
      \/ is_Some (Database.get_capability (step_bot_name step)
                    (step_capability_id step) (db w))).

(** A step that names no bot. *)
Definition anonymous_step : Step :=
  {| step_bot_name := None;
     step_capability_id := Some "prepare";
     step_parameters := None |}.

(** The registry of [pipeline_world] after a restart: an empty cache that
    will be filled from the store on demand. *)
Definition cold_world : World :=
  {| db := db pipeline_world;
     capabilities_cache := ∅;
     bot_handlers := bot_handlers pipeline_world;
     requests := requests pipeline_world;
     calls := calls pipeline_world |}.

(** The cache key under which a row of the store is loaded. *)
Definition row_key (row : Database.CapabilityRow) : string :=
  CapabilityRegistry.cache_key (Some (Database.cap_bot_name row))
    (Some (Database.cap_capability_id row)).

(** Outcomes numbered 1, 2, ... in list order. *)
Definition numbered (l : list CommandExecutor.StepOutcome) : Prop :=
  forall k o, l !! k = Some o -> CommandExecutor.o_step o = (k + 1)%nat.

Definition succeeded (o : CommandExecutor.StepOutcome) : Prop :=
  CommandExecutor.o_success o = true.

(** The capability, command and permission tables of [d1] are those of [d]. *)
Definition same_tables (d d1 : Database.t) : Prop :=
  Database.capabilities d1 = Database.capabilities d
  /\ Database.custom_commands d1 = Database.custom_commands d
  /\ Database.permissions d1 = Database.permissions d.

(** An audit row written for one run of a command. *)
Definition command_executed_entry (user_id username : string) (ok : bool)
    (row : Database.AuditRow) : Prop :=
  Database.log_action_type row = "command_executed"
  /\ Database.log_user_id row = Some user_id
  /\ Database.log_username row = Some username
  /\ Database.log_success row = ok.

(** The handler classes of [utils/bot_handler.py]. *)
Definition is_stock_handler (h : Handler) : bool :=
  match h with
  | MockBotHandler _ | HTTPBotHandler _ _ _ _ | WebSocketBotHandler _ => true
  | Function _ | CustomHandler _ => false
  end.

(** A run of [sync] on the system whose HTTP library is not installed. *)
Definition sync_run : py_exec CommandExecutor.ExecutionResult * World :=
  CommandExecutor.execute_command "sync" "42" "ann" None (http_world None).


Definition apply_world : World :=
  store_command "apply" [mk_step "beta" "apply"] pipeline_world.

(** Handlers whose call ends in other ways: one raises [SystemExit(3)],
    which is no instance of [Exception]; one raises an exception whose
    [__str__] raises [ValueError('no text')]; one returns a [set], which
    is not JSON data. *)
Definition system_exit : BaseException := PyExc false (Text "3").

Definition unprintable : BaseException := PyExc true (StrRaises (Exception "no text")).

Definition exiting_function : Behaviour := fun _ _ _ _ => Raise system_exit.

Definition unprintable_function : Behaviour := fun _ _ _ _ => Raise unprintable.

Definition opaque_function : Behaviour := fun _ _ _ _ => Return (OpaqueObject "set").

(** [apply_world] with another handler bound to [beta], and the run of
    [apply] there. *)
Definition rebound_world (handler : Handler) : World :=
  CommandExecutor.register_bot_handler "beta" handler apply_world.

Definition rebound_run (handler : Handler)
    : py_exec CommandExecutor.ExecutionResult * World :=
  CommandExecutor.execute_command "apply" "42" "ann" None (rebound_world handler).

Definition rebound_direct (handler : Handler)
    : py_exec CommandExecutor.StepResult * World :=
  CommandExecutor.execute_direct_step (Some "beta") (Some "apply") (JDict []) "42" None
    (rebound_world handler).


(** * The model on small inputs *)

Example json_dumps_permission_list :
  json_dumps (JList [JStr "execute"; JStr "admin"])
  = "[" ++ dquote ++ "execute" ++ dquote ++ ", " ++ dquote ++ "admin" ++ dquote ++ "]".
Proof. vm_compute. reflexivity. Qed.

Example json_dumps_escapes :
  json_dumps (JDict [("step", JInt 12); ("error", JStr (dquote ++ "a" ++ backslash))])
  = "{" ++ dquote ++ "step" ++ dquote ++ ": 12, " ++ dquote ++ "error" ++ dquote ++ ": "
    ++ dquote ++ backslash ++ dquote ++ "a" ++ backslash ++ backslash ++ dquote ++ "}".
Proof. vm_compute. reflexivity. Qed.

Example rstrip_slash_trailing :
  BotHandler.rstrip_slash "http://svc.local//" = "http://svc.local".
Proof. vm_compute. reflexivity. Qed.

Example raise_for_status_404 :
  BotHandler.raise_for_status "http://svc.local/execute/ping" 404 "Not Found"
  = Raise "404 Client Error: Not Found for url: http://svc.local/execute/ping".
Proof. vm_compute. reflexivity. Qed.

Example permission_levels_ordered :
  Database._permission_level_allows "admin" "execute" = true
  /\ Database._permission_level_allows "read" "execute" = false
  /\ Database._permission_level_allows "execute" "execute" = true
  /\ Database._permission_level_allows "owner" "read" = false.
Proof. vm_compute. auto. Qed.

Example cache_key_none :
  CapabilityRegistry.cache_key None (Some "ping") = "None:ping".
Proof. reflexivity. Qed.

Example caught_str_cases :
  caught_str (Exception "boom") = Return "boom"
  /\ caught_str system_exit = Raise system_exit
  /\ caught_str unprintable = Raise (Exception "no text").
Proof. vm_compute. auto. Qed.

Example dict_item_cases :
  dict_item "description" (Missing : Field string) = Raise "'description'"
  /\ dict_item "description" (Null : Field string) = Return None
  /\ dict_get_default "" (Null : Field string) = None
  /\ dict_get_default "" (Missing : Field string) = Some "".
Proof. vm_compute. auto. Qed.

Example store_refuses_null :
  Database.register_capability "b" (Some "c") None None None Database.empty
  = (false, Database.empty)
  /\ Database.register_capability "b" None (Some "d") None None Database.empty
     = (false, Database.empty)
  /\ Database.save_custom_command "n" None [] "u" Database.empty
     = (false, Database.empty).
Proof. vm_compute. auto. Qed.

Example discovered_descriptors_registered :
  fst (CapabilityRegistry.register_capabilities_from_api "b" discovered_descriptors
         empty_world) = 2
  /\ map (fun r => (Database.cap_capability_id r, Database.cap_description r,
                    Database.cap_parameters r, Database.cap_permissions_required r))
       (Database.capabilities
          (db (snd (CapabilityRegistry.register_capabilities_from_api "b"
                      discovered_descriptors empty_world))))
     = [("y", "", "{}", "[]"); ("x2", "ok", "{}", "[]")].
Proof. vm_compute. auto. Qed.

Example direct_step_raises :
  fst (rebound_direct (Function unprintable_function)) = Raise (Exception "no text")
  /\ fst (rebound_direct (Function exiting_function)) = Raise system_exit
  /\ returned_result (rebound_run (Function unprintable_function))
     = CommandExecutor.failure 1 1 [] "Step 1 exception: no text".
Proof. vm_compute. auto. Qed.

(** * Properties of the permission resolver *)

Section PermissionResolver.
Import Database.

Lemma capability_read_grant_matches user bot cap :
  capability_grant user (Some bot) (Some cap) (capability_read_grant user bot cap) = true.
Proof.
  unfold capability_grant, capability_read_grant, sql_eq; simpl.
  by rewrite !bool_decide_eq_true_2.
Qed.

(** A row found in the capability tier settles the check on its own. *)
Lemma check_permission_capability_tier user bot cap level d row :
  find (capability_grant user bot cap) (permissions d) = Some row ->
  check_permission user bot cap level d
  = _permission_level_allows (perm_permission_level row) level.
Proof. intros Hfind. unfold check_permission. by rewrite Hfind. Qed.

(** With no row in the capability tier, a bot-wide row settles it. *)
Lemma check_permission_bot_tier user bot cap level d row :
  find (capability_grant user bot cap) (permissions d) = None ->
  find (bot_wide_grant user bot) (permissions d) = Some row ->
  check_permission user bot cap level d
  = _permission_level_allows (perm_permission_level row) level.
Proof. intros H1 H2. unfold check_permission. by rewrite H1, H2. Qed.

(** X1: deny by default.  A user without any row in the permissions
    table is refused whatever the bot, the capability and the required
    level. *)
Lemma check_permission_no_grant user bot cap level d :
  (forall r, In r (permissions d) -> perm_user_id r <> user) ->
  check_permission user bot cap level d = false.
Proof.
  intros Hnone. unfold check_permission.
  assert (Hmiss : forall f,
             (forall r, f r = true -> perm_user_id r = user) ->
             find f (permissions d) = None).
  { intros f Hf. destruct (find f (permissions d)) as [r|] eqn:E; [|done].
    apply find_some in E as [Hin Hr]. by destruct (Hnone r Hin (Hf r Hr)). }
  rewrite !Hmiss; [done | | |]; intros r;
    unfold global_grant, bot_wide_grant, capability_grant;
    rewrite ?andb_true_iff, bool_decide_eq_true; tauto.
Qed.

(** C1 (as amended): a user who holds a capability-scoped [read] grant for
    (bot, capability) and a bot-wide [admin] grant for the same bot, and
    whose capability-scoped grants for that pair are all of level [read],
    is refused [execute]: the capability tier alone decides. *)
Theorem check_permission_capability_read_shadows_bot_admin
    (d : t) (user bot cap : string) :
  In (capability_read_grant user bot cap) (permissions d) ->
  In (bot_admin_grant user bot) (permissions d) ->
  (forall r, In r (permissions d) ->
             capability_grant user (Some bot) (Some cap) r = true ->
             perm_permission_level r = "read") ->
  check_permission user (Some bot) (Some cap) "execute" d = false.
Proof.
  intros Hread _ Honly.
  destruct (find (capability_grant user (Some bot) (Some cap)) (permissions d))
    as [row|] eqn:Hfind.
  - rewrite (check_permission_capability_tier _ _ _ _ _ _ Hfind).
    apply find_some in Hfind as [Hin Hrow].
    by rewrite (Honly row Hin Hrow).
  - pose proof (find_none _ _ Hfind _ Hread) as Hno.
    by rewrite capability_read_grant_matches in Hno.
Qed.

Lemma check_permission_capability_read_shadows_bot_admin_witness :
  check_permission "u1" (Some "weather") (Some "forecast") "execute" two_grants = false.
Proof.
  apply (check_permission_capability_read_shadows_bot_admin two_grants
           "u1" "weather" "forecast").
  - vm_compute. auto.
  - vm_compute. auto.
  - intros r Hin Hr. vm_compute in Hin.
    destruct Hin as [<- | [<- | []]]; [reflexivity | vm_compute in Hr; discriminate].
Defined.

(** C1 as stated fails: holding the two grants does not by itself make the
    check return false, because the capability tier is decided by the
    first stored capability-scoped row. *)
Lemma check_permission_read_and_admin_counterexample :
  ~ (forall (d : t) (user bot cap : string),
        In (capability_read_grant user bot cap) (permissions d) ->
        In (bot_admin_grant user bot) (permissions d) ->
        check_permission user (Some bot) (Some cap) "execute" d = false).
Proof.
  intros Hclaim.
  specialize (Hclaim three_grants "u1" "weather" "forecast").
  assert (Htrue : check_permission "u1" (Some "weather") (Some "forecast")
                    "execute" three_grants = true) by (vm_compute; reflexivity).
  rewrite Hclaim in Htrue; [discriminate | |]; vm_compute; auto.
Qed.

End PermissionResolver.

(** * Properties of the capability registry *)

Section Registry.
Import CapabilityRegistry.

Lemma set_db_same w : set_db (db w) w = w.
Proof. by destruct w. Qed.

Lemma db_get_capability_key bot cap d :
  Database.get_capability (Some bot) (Some cap) d
  = find (Database.same_capability_key bot cap) (Database.capabilities d).
Proof. reflexivity. Qed.

Lemma find_none_existsb {A} (f : A -> bool) (l : list A) :
  find f l = None -> existsb f l = false.
Proof.
  induction l as [|x l IH]; simpl; [done|].
  destruct (f x); [done | exact IH].
Qed.

Lemma find_app_fresh {A} (f : A -> bool) (l : list A) (x : A) :
  find f l = None -> f x = true -> find f (l ++ [x]) = Some x.
Proof.
  intros Hnone Hx. induction l as [|y l IH]; simpl in *.
  - by rewrite Hx.
  - destruct (f y); [done | by apply IH].
Qed.

Lemma find_some_existsb {A} (f : A -> bool) (l : list A) (x : A) :
  find f l = Some x -> existsb f l = true.
Proof.
  intros Hfind. apply find_some in Hfind as [Hin Hx].
  apply existsb_exists. eauto.
Qed.

Lemma same_capability_key_registered_row bot cap desc params perms :
  Database.same_capability_key bot cap (registered_row bot cap desc params perms) = true.
Proof.
  unfold Database.same_capability_key; simpl. by rewrite !bool_decide_eq_true_2.
Qed.

(** The first registration of a pair the store does not hold yet. *)
Lemma register_capability_fresh w bot cap desc params perms :
  Database.get_capability (Some bot) (Some cap) (db w) = None ->
  let w1 := snd (register_capability bot (Some cap) (Some desc) params perms w) in
  fst (register_capability bot (Some cap) (Some desc) params perms w) = true
  /\ capabilities_cache w1 !! cache_key (Some bot) (Some cap)
     = Some (registered_entry bot cap desc params perms)
  /\ Database.get_capability (Some bot) (Some cap) (db w1)
     = Some (registered_row bot cap desc params perms).
Proof.
  intros Hfresh. rewrite db_get_capability_key in Hfresh.
  unfold register_capability, Database.register_capability.
  rewrite (find_none_existsb _ _ Hfresh). simpl. split; [done|]. split.
  - apply lookup_insert_eq.
  - rewrite db_get_capability_key. simpl.
    apply find_app_fresh; [done | apply same_capability_key_registered_row].
Qed.

(** Registering a pair the store already holds changes nothing. *)
Lemma register_capability_duplicate w bot cap desc params perms row :
  Database.get_capability (Some bot) (Some cap) (db w) = Some row ->
  register_capability bot (Some cap) (Some desc) params perms w = (false, w).
Proof.
  intros Hheld. rewrite db_get_capability_key in Hheld.
  unfold register_capability, Database.register_capability.
  rewrite (find_some_existsb _ _ _ Hheld). simpl. by rewrite set_db_same.
Qed.

Lemma get_capability_cached w bot cap entry :
  capabilities_cache w !! cache_key bot cap = Some entry ->
  get_capability bot cap w = (Some entry, w).
Proof. intros Hhit. unfold get_capability. by rewrite Hhit. Qed.

(** C6: registering a pair twice.  The first call returns true and the
    capability is then returned by [get_capability]; the second call
    returns false and changes neither the registry nor the store, so the
    description and parameters given first are the ones still held. *)
Theorem register_capability_twice
    (w : World) (bot cap : string)
    (desc1 : string) (params1 : option json) (perms1 : option (list string))
    (desc2 : string) (params2 : option json) (perms2 : option (list string)) :
  Database.get_capability (Some bot) (Some cap) (db w) = None ->
  let first := register_capability bot (Some cap) (Some desc1) params1 perms1 w in
  let second := register_capability bot (Some cap) (Some desc2) params2 perms2 (snd first) in
  let entry := registered_entry bot cap desc1 params1 perms1 in
  fst first = true
  /\ get_capability (Some bot) (Some cap) (snd first) = (Some entry, snd first)
  /\ fst second = false
  /\ snd second = snd first
  /\ get_capability (Some bot) (Some cap) (snd second) = (Some entry, snd second)
  /\ c_description entry = desc1
  /\ c_parameters entry = ParametersDict (or_empty_dict params1)
  /\ Database.get_capability (Some bot) (Some cap) (db (snd second))
     = Some (registered_row bot cap desc1 params1 perms1).
Proof.
  intros Hfresh first second entry.
  destruct (register_capability_fresh w bot cap desc1 params1 perms1 Hfresh)
    as (Hok & Hcache & Hrow).
  fold first in Hok, Hcache, Hrow.
  assert (Hsecond : second = (false, snd first))
    by (apply (register_capability_duplicate _ _ _ _ _ _ _ Hrow)).
  rewrite Hsecond; simpl.
  repeat split; try done; by apply get_capability_cached.
Qed.

Lemma register_capability_twice_witness :
  let first := register_capability "weather" (Some "forecast") (Some "Forecast")
                 (Some (JDict [("city", JStr "string")])) (Some ["execute"]) empty_world in
  let second := register_capability "weather" (Some "forecast") (Some "Other") None None (snd first) in
  fst first = true /\ fst second = false
  /\ fst (get_capability (Some "weather") (Some "forecast") (snd second))
     = Some (registered_entry "weather" "forecast" "Forecast"
               (Some (JDict [("city", JStr "string")])) (Some ["execute"])).
Proof.
  destruct (register_capability_twice empty_world "weather" "forecast"
              "Forecast" (Some (JDict [("city", JStr "string")])) (Some ["execute"])
              "Other" None None) as (H1 & _ & H3 & _ & H5 & _); [reflexivity|].
  split; [exact H1|]. split; [exact H3|]. by rewrite H5.
Defined.

(** C3 (as amended): the empty step list is accepted; [validate_command_steps]
    returns [(True, None)] and leaves the registry as it was. *)
Theorem validate_command_steps_empty_accepted (w : World) :
  validate_command_steps [] w = ((true, None), w).
Proof. reflexivity. Qed.

(** C3 as stated fails: the empty list is not rejected. *)
Lemma validate_command_steps_empty_counterexample :
  fst (fst (validate_command_steps [] empty_world)) <> false.
Proof. simpl. discriminate. Qed.

Lemma cache_key_colon_collision :
  cache_key (Some "a:b") (Some "c") = cache_key (Some "a") (Some "b:c").
Proof. reflexivity. Qed.

(** C7: two distinct pairs whose names contain a colon are both accepted
    by the store but share one cache slot, and looking up the first pair
    returns the capability of the second. *)
Theorem get_capability_colon_collision :
  fst (register_capability "a:b" (Some "c") (Some "first") None None empty_world) = true
  /\ fst (register_capability "a" (Some "b:c") (Some "second") None None
            (snd (register_capability "a:b" (Some "c") (Some "first") None None empty_world))) = true
  /\ length (Database.capabilities (db colon_world)) = 2
  /\ size (capabilities_cache colon_world) = 1
  /\ fst (get_capability (Some "a:b") (Some "c") colon_world)
     = Some (registered_entry "a" "b:c" "second" None None).
Proof. vm_compute. auto. Qed.

End Registry.

(** * Properties of the command executor *)

Section Executor.
Import CommandExecutor.
Local Open Scope list_scope.

(** ** What each operation leaves untouched *)


Lemma log_action_audit a u n d s w :
  Database.audit_logs (db (log_action a u n d s w))
  = Database.audit_logs (db w)
    ++ [ {| Database.log_action_type := a;
            Database.log_user_id := u;
            Database.log_username := n;
            Database.log_details := json_dumps (or_empty_dict d);
            Database.log_success := s |} ].
Proof. reflexivity. Qed.

Lemma get_capability_frame bot cap w res w1 :
  CapabilityRegistry.get_capability bot cap w = (res, w1) ->
  calls w1 = calls w /\ db w1 = db w
  /\ bot_handlers w1 = bot_handlers w /\ requests w1 = requests w.
Proof.
  unfold CapabilityRegistry.get_capability. intros H.
  destruct (capabilities_cache w !! _); [by inversion H|].
  destruct (Database.get_capability _ _ _); by inversion H.
Qed.

(** [_execute_step] calls the handler at most once, and only the handler
    stored under the step's bot name; it leaves the store alone. *)
Lemma _execute_step_calls bot cap params ctx w res w1 :
  _execute_step bot cap params ctx w = (res, w1) ->
  db w1 = db w
  /\ (calls w1 = calls w
      \/ exists name, bot = Some name
           /\ calls w1 = calls w ++ [ {| call_bot_name := name;
                                         call_capability_id := cap;
                                         call_parameters := params;
                                         call_context := ctx |} ]).
Proof.
  unfold _execute_step. destruct bot as [name|]; [|intros H; inversion H; by eauto].
  destruct (bot_handlers w !! name) as [h|]; [|intros H; inversion H; by eauto].
  destruct (BotHandler.invoke _ _ _ _ _ _) as [value|e];
    [|destruct (caught_str e)]; intros H; inversion H; subst;
    (split; [reflexivity|]); right; eauto.
Qed.

(** A step reported as successful was answered by its handler. *)
Lemma _execute_step_success bot cap params ctx w sr w1 :
  _execute_step bot cap params ctx w = (Return sr, w1) ->
  sr_success sr = true ->
  exists name, bot = Some name
    /\ calls w1 = calls w ++ [ {| call_bot_name := name;
                                  call_capability_id := cap;
                                  call_parameters := params;
                                  call_context := ctx |} ].
Proof.
  unfold _execute_step. destruct bot as [name|].
  - destruct (bot_handlers w !! name) as [h|].
    + destruct (BotHandler.invoke _ _ _ _ _ _) as [value|e];
        [|destruct (caught_str e)]; intros H Hs; inversion H; subst;
        [eauto | discriminate].
    + intros H Hs; inversion H; subst; discriminate.
  - intros H Hs; inversion H; subst; discriminate.
Qed.

(** An exception leaves [_execute_step] only if the handler raised one
    that the [except] clause does not catch or cannot print. *)
Lemma _execute_step_raised bot cap params ctx w escaped w1 :
  _execute_step bot cap params ctx w = (Raise escaped, w1) ->
  exists name handler e,
    bot = Some name
    /\ bot_handlers w !! name = Some handler
    /\ BotHandler.invoke handler (requests w) (calls w) cap params ctx = Raise e
    /\ caught_str e = Raise escaped
    /\ calls w1 = calls w ++ [ {| call_bot_name := name;
                                  call_capability_id := cap;
                                  call_parameters := params;
                                  call_context := ctx |} ].
Proof.
  unfold _execute_step. destruct bot as [name|]; [|by inversion 1].
  destruct (bot_handlers w !! name) as [h|] eqn:Hh; [|by inversion 1].
  destruct (BotHandler.invoke _ _ _ _ _ _) as [value|e] eqn:Hinvoke; [by inversion 1|].
  destruct (caught_str e) as [message|escaped'] eqn:Hcaught; intros H; inversion H; subst.
  exists name, h, e. by repeat split.
Qed.

(** What becomes of an exception raised by the handler. *)
Lemma _execute_step_handler_raises name cap params ctx w handler e :
  bot_handlers w !! name = Some handler ->
  BotHandler.invoke handler (requests w) (calls w) cap params ctx = Raise e ->
  exists w1,
    _execute_step (Some name) cap params ctx w
    = (match caught_str e with
       | Return message =>
           Return {| sr_success := false; sr_result := None; sr_error := Some message |}
       | Raise escaped => Raise escaped
       end, w1)
    /\ db w1 = db w.
Proof.
  intros Hh Hraise. unfold _execute_step. rewrite Hh, Hraise.
  destruct (caught_str e); eauto.
Qed.

(** Whatever the HTTP library answers, a step served by [HTTPBotHandler]
    is reported as successful. *)
Lemma _execute_step_http_reports_success name cap params ctx w
    bot_name base_url api_key timeout :
  bot_handlers w !! name = Some (HTTPBotHandler bot_name base_url api_key timeout) ->
  exists result w1,
    _execute_step (Some name) cap params ctx w
    = (Return {| sr_success := true; sr_result := Some result; sr_error := None |}, w1).
Proof.
  intros Hh. unfold _execute_step. rewrite Hh. simpl. eauto.
Qed.

(** ** The loop over the steps *)

Section Loop.
Variables (command_name user_id username : string) (context : option json).
Variable total : nat.

Abbreviation body := (loop_body command_name user_id username context total).
Abbreviation loop := (for_loop command_name user_id username context total).
Abbreviation step_call step :=
  (_execute_step (step_bot_name step) (step_capability_id step)
     (default (JDict []) (step_parameters step)) context).
Abbreviation resolve step :=
  (CapabilityRegistry.get_capability (step_bot_name step) (step_capability_id step)).
Abbreviation denied step :=
  (permission_denied user_id (step_bot_name step) (step_capability_id step)).



(** Step [i + 1] is dispatched and fails: its outcome is recorded and the
    loop returns. *)
Lemma loop_body_dispatch_failed i step acc w capability w1 sr w2 :
  resolve step w = (Some capability, w1) ->
  denied step capability w1 = false ->
  step_call step w1 = (Return sr, w2) ->
  sr_success sr = false ->
  let msg := ("Step " ++ pretty (i + 1) ++ " failed: "
              ++ default "Unknown error" (sr_error sr))%string in
  body i step acc w
  = (Return (Exit (failure (i + 1) total
                     (acc ++ [outcome_of (i + 1) (step_bot_name step)
                                (step_capability_id step) sr])
                     msg)),
     log_action "command_executed" (Some user_id) (Some username)
       (failure_details command_name (i + 1) msg) false w2).
Proof.
  intros Hres Hperm Hcall Hfail. unfold loop_body. rewrite Hres, Hperm.
  unfold dispatch. by rewrite Hcall, Hfail.
Qed.

(** Step [i + 1] is dispatched and [_execute_step] raises: nothing is
    recorded for the step.  An exception that the [except] clause of the
    loop catches and can print ends the run with a result that counts the
    step; any other leaves the loop. *)
Lemma loop_body_dispatch_raised i step acc w capability w1 e w2 :
  resolve step w = (Some capability, w1) ->
  denied step capability w1 = false ->
  step_call step w1 = (Raise e, w2) ->
  body i step acc w
  = match caught_str e with
    | Return message =>
        let msg := ("Step " ++ pretty (i + 1) ++ " exception: " ++ message)%string in
        (Return (Exit (failure (i + 1) total acc msg)),
         log_action "command_executed" (Some user_id) (Some username)
           (failure_details command_name (i + 1) msg) false w2)
    | Raise escaped => (Raise escaped, w2)
    end.
Proof.
  intros Hres Hperm Hcall. unfold loop_body. rewrite Hres, Hperm.
  unfold dispatch. by rewrite Hcall.
Qed.


(** Running the loop over [pre ++ rest] is running it over [pre] and, if
    no step of [pre] returned, over [rest]. *)
Lemma for_loop_app pre rest i results w :
  loop i (pre ++ rest) results w
  = match loop i pre results w with
    | (Return (Next results1), w1) => loop (i + length pre) rest results1 w1
    | stopped => stopped
    end.
Proof.
  revert i results w. induction pre as [|step pre IH]; intros i results w; simpl.
  - by rewrite Nat.add_0_r.
  - destruct (body i step results w) as [[[r|results1]|e] w1]; try reflexivity.
    rewrite IH. by replace (S i + length pre) with (i + S (length pre)) by lia.
Qed.

(** When the loop stops at the step after [pre], the exit of that step is
    the exit of the whole loop. *)
Lemma for_loop_stops_at pre step post results results1 w w1 r w2 :
  loop 0 pre results w = (Return (Next results1), w1) ->
  body (length pre) step results1 w1 = (Return (Exit r), w2) ->
  loop 0 (pre ++ step :: post) results w = (Return (Exit r), w2).
Proof.
  intros Hpre Hstep. rewrite for_loop_app, Hpre. simpl. by rewrite Hstep.
Qed.

(** An exception that leaves the step after [pre] leaves the loop. *)
Lemma for_loop_raises_at pre step post results results1 w w1 e w2 :
  loop 0 pre results w = (Return (Next results1), w1) ->
  body (length pre) step results1 w1 = (Raise e, w2) ->
  loop 0 (pre ++ step :: post) results w = (Raise e, w2).
Proof.
  intros Hpre Hstep. rewrite for_loop_app, Hpre. simpl. by rewrite Hstep.
Qed.



End Loop.

(** ** [execute_command] *)

Section ExecuteCommand.
Variables (command_name user_id username : string) (context : option json).

Abbreviation run := (execute_command command_name user_id username context).
Abbreviation loop_of command :=
  (for_loop command_name user_id username context
     (length (Database.cmd_steps command))).
Abbreviation body_of command :=
  (loop_body command_name user_id username context
     (length (Database.cmd_steps command))).
Abbreviation step_call step :=
  (_execute_step (step_bot_name step) (step_capability_id step)
     (default (JDict []) (step_parameters step)) context).
Abbreviation resolve step :=
  (CapabilityRegistry.get_capability (step_bot_name step) (step_capability_id step)).
Abbreviation denied step :=
  (permission_denied user_id (step_bot_name step) (step_capability_id step)).

(** An early return of the loop is the return of [execute_command]. *)
Lemma execute_command_exit w command r w1 :
  Database.get_custom_command command_name (db w) = Some command ->
  loop_of command 0 (Database.cmd_steps command) [] w = (Return (Exit r), w1) ->
  run w = (Return r, w1).
Proof. intros Hcmd Hloop. unfold execute_command. by rewrite Hcmd, Hloop. Qed.

(** An exception that leaves the loop leaves [execute_command]. *)
Lemma execute_command_raised w command e w1 :
  Database.get_custom_command command_name (db w) = Some command ->
  loop_of command 0 (Database.cmd_steps command) [] w = (Raise e, w1) ->
  run w = (Raise e, w1).
Proof. intros Hcmd Hloop. unfold execute_command. by rewrite Hcmd, Hloop. Qed.

(** C9: a command name that the store does not return (never stored, or
    disabled).  The result is a failure whose error text contains the
    name, no handler is invoked and one failed [command_executed] entry
    is appended to the audit log; the returned dictionary has no
    [steps_executed], [total_steps] or [results] key. *)
Theorem execute_command_not_found (w : World) :
  Database.get_custom_command command_name (db w) = None ->
  exists w1,
    run w
    = (Return {| success := false;
                 steps_executed := None;
                 total_steps := None;
                 results := None;
                 error := Some ("Command " ++ dquote ++ command_name ++ dquote
                                ++ " not found")%string |}, w1)
    /\ calls w1 = calls w
    /\ Database.audit_logs (db w1)
       = Database.audit_logs (db w)
         ++ [ {| Database.log_action_type := "command_executed";
                 Database.log_user_id := Some user_id;
                 Database.log_username := Some username;
                 Database.log_details :=
                   json_dumps (JDict [("command_name", JStr command_name);
                                      ("error", JStr "Command not found")]);
                 Database.log_success := false |} ].
Proof.
  intros Hcmd. unfold execute_command. rewrite Hcmd.
  eexists. split; [reflexivity|]. split; reflexivity.
Qed.



(** C8 (as amended): the handler of a step raises.  An instance of
    [Exception] whose [str] returns a text is caught: [execute_command]
    returns, and the result is a failure that counts the step as executed
    and whose last outcome is the failed step, carrying that text.  An
    exception that is not an instance of [Exception] leaves
    [execute_command].  When [str] of the exception raises instead, no
    outcome is recorded for the step: what [str] raised is reported as the
    error of the run if it is itself an [Exception] that prints, and
    leaves [execute_command] otherwise. *)
Theorem handler_exception_becomes_failed_outcome (w : World)
    (command : Database.CommandRow) (pre : list Step) (step : Step)
    (post : list Step) (acc : list StepOutcome) (w1 : World)
    (capability : Capability) (w2 : World) (name : string)
    (handler : Handler) (e : BaseException) :
  Database.get_custom_command command_name (db w) = Some command ->
  Database.cmd_steps command = pre ++ step :: post ->
  loop_of command 0 pre [] w = (Return (Next acc), w1) ->
  resolve step w1 = (Some capability, w2) ->
  denied step capability w2 = false ->
  step_bot_name step = Some name ->
  bot_handlers w2 !! name = Some handler ->
  BotHandler.invoke handler (requests w2) (calls w2) (step_capability_id step)
    (default (JDict []) (step_parameters step)) context = Raise e ->
  (forall message,
      is_Exception e = true -> exn_str e = Text message ->
      exists r w3,
        run w = (Return r, w3)
        /\ success r = false
        /\ steps_executed r = Some (length pre + 1)
        /\ results r
           = Some (acc ++ [ {| o_step := length pre + 1;
                               o_bot_name := Some name;
                               o_capability_id := step_capability_id step;
                               o_success := false;
                               o_result := JsonValue JNull;
                               o_error := Some message |} ])
        /\ error r = Some ("Step " ++ pretty (length pre + 1) ++ " failed: "
                           ++ message)%string)
  /\ (is_Exception e = false -> exists w3, run w = (Raise e, w3))
  /\ (forall raised,
        is_Exception e = true -> exn_str e = StrRaises raised ->
        match caught_str raised with
        | Return message =>
            exists r w3,
              run w = (Return r, w3)
              /\ success r = false
              /\ steps_executed r = Some (length pre + 1)
              /\ results r = Some acc
              /\ error r = Some ("Step " ++ pretty (length pre + 1) ++ " exception: "
                                 ++ message)%string
        | Raise escaped => exists w3, run w = (Raise escaped, w3)
        end).
Proof.
  intros Hcmd Hsteps Hpre Hres Hperm Hname Hhandler Hraise.
  destruct (_execute_step_handler_raises name (step_capability_id step)
              (default (JDict []) (step_parameters step)) context w2 handler e
              Hhandler Hraise) as (w3 & Hcall & _).
  rewrite <- Hname in Hcall.
  split; [|split].
  - intros message Hclass Hstr.
    assert (Hcaught : caught_str e = Return message)
      by (unfold caught_str; by rewrite Hclass, Hstr).
    rewrite Hcaught in Hcall.
    pose proof (loop_body_dispatch_failed command_name user_id username context
                  (length (Database.cmd_steps command)) (length pre) step acc
                  w1 capability w2 _ w3 Hres Hperm Hcall eq_refl) as Hbody.
    do 2 eexists. split.
    + apply (execute_command_exit _ _ _ _ Hcmd). rewrite Hsteps at 2.
      apply (for_loop_stops_at _ _ _ _ _ _ _ _ _ _ _ _ _ _ Hpre Hbody).
    + simpl. unfold outcome_of. simpl. by rewrite Hname.
  - intros Hclass.
    assert (Hcaught : caught_str e = Raise e)
      by (unfold caught_str; by rewrite Hclass).
    rewrite Hcaught in Hcall.
    pose proof (loop_body_dispatch_raised command_name user_id username context
                  (length (Database.cmd_steps command)) (length pre) step acc
                  w1 capability w2 _ w3 Hres Hperm Hcall) as Hbody.
    rewrite Hcaught in Hbody.
    eexists. apply (execute_command_raised _ _ _ _ Hcmd). rewrite Hsteps at 2.
    apply (for_loop_raises_at _ _ _ _ _ _ _ _ _ _ _ _ _ _ Hpre Hbody).
  - intros raised Hclass Hstr.
    assert (Hcaught : caught_str e = Raise raised)
      by (unfold caught_str; by rewrite Hclass, Hstr).
    rewrite Hcaught in Hcall.
    pose proof (loop_body_dispatch_raised command_name user_id username context
                  (length (Database.cmd_steps command)) (length pre) step acc
                  w1 capability w2 _ w3 Hres Hperm Hcall) as Hbody.
    destruct (caught_str raised) as [message|escaped].
    + do 2 eexists. split.
      * apply (execute_command_exit _ _ _ _ Hcmd). rewrite Hsteps at 2.
        apply (for_loop_stops_at _ _ _ _ _ _ _ _ _ _ _ _ _ _ Hpre Hbody).
      * simpl. done.
    + eexists. apply (execute_command_raised _ _ _ _ Hcmd). rewrite Hsteps at 2.
      apply (for_loop_raises_at _ _ _ _ _ _ _ _ _ _ _ _ _ _ Hpre Hbody).
Qed.


End ExecuteCommand.

(** ** The sample systems *)

(** The HTTP handler itself recognises each kind of failure and answers
    with a dictionary whose [status] is [error]. *)
Lemma http_handler_flags_failures :
  BotHandler.http_execute_capability (Some unreachable) [] "svc" "http://svc.local/"
    None 10 (Some "ping") (JDict []) None
  = BotHandler.error_dict "Connection refused" "svc" (Some "ping")
  /\ BotHandler.http_execute_capability (Some server_error) [] "svc" "http://svc.local/"
       None 10 (Some "ping") (JDict []) None
     = BotHandler.error_dict
         "500 Server Error: Internal Server Error for url: http://svc.local/execute/ping"
         "svc" (Some "ping")
  /\ BotHandler.http_execute_capability (Some malformed_body) [] "svc" "http://svc.local/"
       None 10 (Some "ping") (JDict []) None
     = BotHandler.error_dict "Expecting value: line 1 column 1 (char 0)"
         "svc" (Some "ping").
Proof. vm_compute. auto. Qed.

(** C2: the command [sync] sends its first step through an
    [HTTPBotHandler].  Whatever the HTTP library does (transport error,
    error status, malformed body, or not being installed), the step is
    recorded with [success = True], the second step runs as well and the
    command as a whole is reported as successful. *)
Theorem http_failure_reported_as_success (net : option Requests) :
  exists r w1,
    execute_command "sync" "42" "ann" None (http_world net) = (Return r, w1)
    /\ success r = true
    /\ steps_executed r = Some 2
    /\ total_steps r = Some 2
    /\ (map o_success <$> results r) = Some [true; true]
    /\ (map o_result <$> results r)
       = Some [JsonValue (BotHandler.http_execute_capability net [] "svc"
                            "http://svc.local/" None 10 (Some "ping") (JDict []) None);
               JsonValue (BotHandler.mock_execute_capability "notes" (Some "record")
                            (JDict []))]
    /\ map call_bot_name (calls w1) = ["svc"; "notes"].
Proof.
  do 2 eexists. split; [vm_compute; reflexivity|].
  vm_compute. repeat split.
Qed.

Lemma execute_command_not_found_witness :
  exists w1,
    execute_command "ghost" "42" "ann" None empty_world
    = (Return {| success := false;
                 steps_executed := None;
                 total_steps := None;
                 results := None;
                 error := Some ("Command " ++ dquote ++ "ghost" ++ dquote
                                ++ " not found")%string |}, w1)
    /\ calls w1 = calls empty_world
    /\ Database.audit_logs (db w1)
       = Database.audit_logs (db empty_world)
         ++ [ {| Database.log_action_type := "command_executed";
                 Database.log_user_id := Some "42";
                 Database.log_username := Some "ann";
                 Database.log_details :=
                   json_dumps (JDict [("command_name", JStr "ghost");
                                      ("error", JStr "Command not found")]);
                 Database.log_success := false |} ].
Proof.
  apply (execute_command_not_found "ghost" "42" "ann" None empty_world).
  reflexivity.
Defined.




Lemma handler_exception_becomes_failed_outcome_witness :
  exists r w3,
    execute_command "deploy" "42" "ann" None pipeline_world = (Return r, w3)
    /\ success r = false
    /\ steps_executed r = Some 2
    /\ results r
       = Some (loop_results deploy_first_step
               ++ [ {| o_step := 2;
                       o_bot_name := Some "beta";
                       o_capability_id := Some "apply";
                       o_success := false;
                       o_result := JsonValue JNull;
                       o_error := Some "boom" |} ])
    /\ error r = Some "Step 2 failed: boom".
Proof.
  destruct (handler_exception_becomes_failed_outcome "deploy" "42" "ann" None
              pipeline_world deploy_command [mk_step "alpha" "prepare"]
              (mk_step "beta" "apply") [mk_step "gamma" "finish"]
              (loop_results deploy_first_step) (snd deploy_first_step)
              (registered_entry "beta" "apply" "Apply" None None) deploy_resolved
              "beta" (Function failing_function) (Exception "boom"))
    as [Hcaught _]; try (vm_compute; reflexivity).
  apply (Hcaught "boom"); reflexivity.
Defined.

(** C8 as stated fails.  The handler of the only step of [apply] is
    invoked and raises [SystemExit]: the exception leaves
    [execute_command].  It raises an exception whose [str] raises: the
    run returns, but the result holds no failed outcome for the step.  And
    an exception leaves [execute_command] even when no handler raises, if
    a handler returned an object that [json.dumps] refuses. *)
Lemma handler_exception_escapes_counterexample :
  (BotHandler.invoke (Function exiting_function) None [] (Some "apply") (JDict []) None
   = Raise system_exit
   /\ map call_bot_name (calls (snd (rebound_run (Function exiting_function)))) = ["beta"]
   /\ fst (rebound_run (Function exiting_function)) = Raise system_exit)
  /\ (BotHandler.invoke (Function unprintable_function) None [] (Some "apply")
        (JDict []) None = Raise unprintable
      /\ exists r,
           fst (rebound_run (Function unprintable_function)) = Return r
           /\ steps_executed r = Some 1
           /\ results r = Some [])
  /\ fst (rebound_run (Function opaque_function))
     = Raise (Exception "Object of type set is not JSON serializable").
Proof.
  split; [|split].
  - vm_compute. auto.
  - split; [reflexivity|]. eexists. split; [vm_compute; reflexivity|].
    vm_compute. auto.
  - vm_compute. reflexivity.
Qed.


End Executor.

(** * Further properties of the permission resolver *)

Section Grants.
Import Database.

Lemma find_app_false {A} (f : A -> bool) (l : list A) (x : A) :
  f x = false -> find f (l ++ [x]) = find f l.
Proof.
  intros Hx. induction l as [|y l IH]; simpl.
  - by rewrite Hx.
  - by destruct (f y).
Qed.

Lemma find_app_some {A} (f : A -> bool) (l l' : list A) (x : A) :
  find f l = Some x -> find f (l ++ l') = Some x.
Proof.
  induction l as [|y l IH]; simpl; [done|].
  by destruct (f y).
Qed.

Lemma find_app_shadowed {A} (f : A -> bool) (l : list A) (x0 x : A) :
  In x0 l -> f x0 = f x -> find f (l ++ [x]) = find f l.
Proof.
  intros Hin Hf. destruct (f x) eqn:Hx.
  - destruct (find f l) as [y|] eqn:Hfind.
    + by apply find_app_some.
    + pose proof (find_none _ _ Hfind _ Hin). congruence.
  - by apply find_app_false.
Qed.

Lemma find_none_of_user (f : PermissionRow -> bool) user (l : list PermissionRow) :
  (forall r, f r = true -> perm_user_id r = user) ->
  (forall r, In r l -> perm_user_id r <> user) ->
  find f l = None.
Proof.
  intros Hf Hnone. destruct (find f l) as [r|] eqn:E; [|done].
  apply find_some in E as [Hin Hr]. by destruct (Hnone r Hin (Hf r Hr)).
Qed.

Lemma capability_grant_user user bot cap r :
  capability_grant user bot cap r = true -> perm_user_id r = user.
Proof.
  unfold capability_grant. rewrite !andb_true_iff, bool_decide_eq_true. tauto.
Qed.

Lemma bot_wide_grant_user user bot r :
  bot_wide_grant user bot r = true -> perm_user_id r = user.
Proof.
  unfold bot_wide_grant. rewrite !andb_true_iff, bool_decide_eq_true. tauto.
Qed.

Lemma global_grant_user user r :
  global_grant user r = true -> perm_user_id r = user.
Proof.
  unfold global_grant. rewrite !andb_true_iff, bool_decide_eq_true. tauto.
Qed.

Lemma check_permission_no_grant_witness :
  check_permission "u2" (Some "weather") (Some "forecast") "read" two_grants = false.
Proof.
  apply (check_permission_no_grant "u2" (Some "weather") (Some "forecast") "read" two_grants).
  intros r Hin. vm_compute in Hin.
  destruct Hin as [<- | [<- | []]]; simpl; discriminate.
Defined.

(** X2: A check that succeeds for one required level succeeds for every level
    of the same or a lower rank: whoever may [admin] may [execute] and
    [read]. *)
Theorem check_permission_weaker_level (d : t) (user : string)
    (bot cap : option string) (required weaker : string) :
  level_rank weaker <= level_rank required ->
  check_permission user bot cap required d = true ->
  check_permission user bot cap weaker d = true.
Proof.
  intros Hrank. unfold check_permission, _permission_level_allows.
  destruct (find (capability_grant user bot cap) (permissions d)) as [r1|];
    [rewrite !Nat.leb_le; lia|].
  destruct (find (bot_wide_grant user bot) (permissions d)) as [r2|];
    [rewrite !Nat.leb_le; lia|].
  destruct (find (global_grant user) (permissions d)) as [r3|];
    [rewrite !Nat.leb_le; lia | done].
Qed.

Lemma check_permission_weaker_level_witness :
  check_permission "u1" (Some "weather") (Some "climate") "read" two_grants = true.
Proof.
  apply (check_permission_weaker_level two_grants "u1" (Some "weather") (Some "climate")
           "admin" "read").
  - vm_compute. lia.
  - vm_compute. reflexivity.
Defined.

(** X3: Granting again for a user and scope that already have a row changes no
    check at all: the row stored first keeps deciding, so a grant can be
    neither raised nor lowered by a later [grant_permission]. *)
Theorem grant_permission_again_changes_nothing (d : t) (r0 : PermissionRow)
    (level : string) (user : string) (bot cap : option string) (required : string) :
  In r0 (permissions d) ->
  check_permission user bot cap required
    (grant_permission (perm_user_id r0) level (perm_bot_name r0) (perm_capability_id r0) d)
  = check_permission user bot cap required d.
Proof.
  intros Hin. unfold check_permission, grant_permission; simpl.
  rewrite !(find_app_shadowed _ _ r0 _ Hin); reflexivity.
Qed.

Lemma grant_permission_again_changes_nothing_witness :
  check_permission "u1" (Some "weather") (Some "forecast") "execute"
    (grant_permission "u1" "admin" (Some "weather") (Some "forecast") two_grants)
  = check_permission "u1" (Some "weather") (Some "forecast") "execute" two_grants.
Proof.
  apply (grant_permission_again_changes_nothing two_grants
           (capability_read_grant "u1" "weather" "forecast") "admin").
  vm_compute. auto.
Defined.

Lemma find_app_none {A} (f : A -> bool) (l : list A) (x : A) :
  find f l = None -> find f (l ++ [x]) = if f x then Some x else None.
Proof.
  induction l as [|y l IH]; simpl; [done|].
  by destruct (f y).
Qed.

(** X4: The first grant of a user who has none: a later check for (bot,
    capability) succeeds exactly when the scope of the grant covers the pair
    and its level reaches the required one.  A grant stored without a bot
    name covers every pair, whatever capability it names. *)
Theorem grant_then_check_fresh_user (d : t) (user level : string)
    (scope_bot scope_cap : option string) (bot cap required : string) :
  (forall r, In r (permissions d) -> perm_user_id r <> user) ->
  check_permission user (Some bot) (Some cap) required
    (grant_permission user level scope_bot scope_cap d)
  = scope_covers scope_bot scope_cap bot cap && _permission_level_allows level required.
Proof.
  intros Hfresh. unfold check_permission, grant_permission; simpl.
  rewrite !find_app_none
    by (eapply find_none_of_user; eauto using
          capability_grant_user, bot_wide_grant_user, global_grant_user).
  unfold capability_grant, bot_wide_grant, global_grant, scope_covers, sql_eq, sql_is_null;
    simpl.
  rewrite (bool_decide_eq_true_2 (user = user)) by done.
  destruct scope_bot as [b|], scope_cap as [c|]; simpl;
    repeat case_bool_decide; simpl; done.
Qed.

Lemma grant_then_check_fresh_user_witness :
  check_permission "u9" (Some "weather") (Some "forecast") "execute"
    (grant_permission "u9" "admin" None (Some "other") two_grants)
  = true.
Proof.
  apply (grant_then_check_fresh_user two_grants "u9" "admin" None (Some "other")
           "weather" "forecast" "execute").
  intros r Hin. vm_compute in Hin.
  destruct Hin as [<- | [<- | []]]; simpl; discriminate.
Defined.

(** X5: A capability-scoped grant for a triple that has none yet decides that
    triple by its own level and changes the outcome of no other check. *)
Theorem capability_grant_is_local (d : t) (user level bot cap : string) :
  find (capability_grant user (Some bot) (Some cap)) (permissions d) = None ->
  let d1 := grant_permission user level (Some bot) (Some cap) d in
  (forall required,
      check_permission user (Some bot) (Some cap) required d1
      = _permission_level_allows level required)
  /\ (forall user' bot' cap' required,
         (user', bot', cap') <> (user, Some bot, Some cap) ->
         check_permission user' bot' cap' required d1
         = check_permission user' bot' cap' required d).
Proof.
  intros Hnone d1. split.
  - intros required. unfold d1, check_permission, grant_permission; simpl.
    rewrite (find_app_none _ _ _ Hnone).
    unfold capability_grant at 1; simpl. unfold sql_eq.
    by rewrite !bool_decide_eq_true_2.
  - intros user' bot' cap' required Hother.
    unfold d1, check_permission, grant_permission; simpl.
    rewrite !find_app_false; [done | | |].
    + unfold global_grant; simpl. apply andb_false_r.
    + unfold bot_wide_grant; simpl. apply andb_false_r.
    + unfold capability_grant, sql_eq; simpl.
      destruct bot' as [b'|], cap' as [c'|]; simpl;
        rewrite ?andb_false_r; try done.
      repeat case_bool_decide; simpl; try done. congruence.
Qed.

Lemma capability_grant_is_local_witness :
  check_permission "u1" (Some "weather") (Some "alerts") "execute"
    (grant_permission "u1" "read" (Some "weather") (Some "alerts") two_grants)
  = false
  /\ check_permission "u1" (Some "weather") (Some "climate") "execute"
       (grant_permission "u1" "read" (Some "weather") (Some "alerts") two_grants)
     = check_permission "u1" (Some "weather") (Some "climate") "execute" two_grants.
Proof.
  destruct (capability_grant_is_local two_grants "u1" "read" "weather" "alerts")
    as [Hown Hother]; [vm_compute; reflexivity|].
  split.
  - rewrite Hown. vm_compute. reflexivity.
  - apply Hother. discriminate.
Defined.

Lemma existsb_find {A} (f : A -> bool) (l : list A) :
  existsb f l = match find f l with Some _ => true | None => false end.
Proof.
  induction l as [|x l IH]; simpl; [done|].
  by destruct (f x).
Qed.

Lemma existsb_orb {A} (f g : A -> bool) (l : list A) :
  existsb (fun x => f x || g x) l = existsb f l || existsb g l.
Proof.
  induction l as [|x l IH]; simpl; [done|].
  rewrite IH. destruct (f x), (g x), (existsb f l), (existsb g l); reflexivity.
Qed.

Lemma check_permission_rank_zero (d : t) (user : string)
    (bot cap : option string) (required : string) :
  level_rank required = 0 ->
  check_permission user bot cap required d
  = existsb (any_grant user bot cap) (permissions d).
Proof.
  intros Hrank. unfold any_grant.
  rewrite !existsb_orb, !existsb_find.
  unfold check_permission, _permission_level_allows. rewrite Hrank.
  destruct (find (capability_grant user bot cap) (permissions d)); [done|].
  destruct (find (bot_wide_grant user bot) (permissions d)); [done|].
  by destruct (find (global_grant user) (permissions d)).
Qed.

(** X6: A required level that is none of [read], [execute], [admin] has rank 0:
    the check then succeeds as soon as one row matches the caller in any
    tier, whatever the level of that row. *)
Theorem check_permission_unranked_level (d : t) (user : string)
    (bot cap : option string) (required : string) :
  required <> "read" -> required <> "execute" -> required <> "admin" ->
  check_permission user bot cap required d
  = existsb (any_grant user bot cap) (permissions d).
Proof.
  intros Hread Hexecute Hadmin. apply check_permission_rank_zero.
  unfold level_rank. by rewrite !bool_decide_eq_false_2.
Qed.

Lemma check_permission_unranked_level_witness :
  check_permission "u1" (Some "weather") (Some "forecast") "write" two_grants = true.
Proof.
  rewrite (check_permission_unranked_level two_grants "u1" (Some "weather")
             (Some "forecast") "write"); [vm_compute; reflexivity | | |]; discriminate.
Defined.

End Grants.

(** * Further properties of the store *)

Section Store.
Import Database.

(** X7: [save_custom_command] followed by [get_custom_command].  A save
    succeeds exactly when the description is not [None] and no row,
    enabled or not, bears the name; the command is then returned with the
    steps, description and author given.  A refused save leaves the store
    as it was, and a save never changes what is returned for another
    name. *)
Theorem save_custom_command_round_trip (d : t) (name : string)
    (description : option string) (steps : list Step) (created_by : string) :
  let saved := save_custom_command name description steps created_by d in
  (fst saved = true <->
   is_Some description
   /\ forall row, In row (custom_commands d) -> cmd_command_name row <> name)
  /\ (fst saved = true ->
      exists row, get_custom_command name (snd saved) = Some row
                  /\ cmd_steps row = steps
                  /\ Some (cmd_description row) = description
                  /\ cmd_created_by row = created_by)
  /\ (fst saved = false -> snd saved = d)
  /\ (forall other, other <> name ->
        get_custom_command other (snd saved) = get_custom_command other d).
Proof.
  unfold save_custom_command. destruct description as [description|]; simpl.
  2:{ split; [split; [done | by intros [[? ?] _]]|]. by repeat split. }
  destruct (existsb (fun r => bool_decide (cmd_command_name r = name)) (custom_commands d))
    eqn:Hex; simpl.
  - split; [|split; [done|split; [done|done]]].
    split; [done|]. intros [_ Hnone].
    apply existsb_exists in Hex as (row & Hin & Hrow).
    apply bool_decide_eq_true in Hrow. by destruct (Hnone row Hin).
  - assert (Hnone : forall row, In row (custom_commands d) -> cmd_command_name row <> name).
    { intros row Hin Hrow.
      assert (existsb (fun r => bool_decide (cmd_command_name r = name)) (custom_commands d)
              = true); [|congruence].
      apply existsb_exists. exists row. split; [done|]. by apply bool_decide_eq_true. }
    split; [split; [eauto | done]|]. split; [|split; [done|]].
    + intros _. eexists. split.
      * unfold get_custom_command; simpl. rewrite find_app_none.
        -- simpl. by rewrite bool_decide_eq_true_2.
        -- destruct (find _ (custom_commands d)) as [row|] eqn:Hfind; [|done].
           apply find_some in Hfind as [Hin Hrow].
           apply andb_true_iff in Hrow as [Hrow _]. apply bool_decide_eq_true in Hrow.
           by destruct (Hnone row Hin).
      * by simpl.
    + intros other Hother. unfold get_custom_command; simpl.
      apply find_app_false. simpl. by rewrite bool_decide_eq_false_2.
Qed.

Lemma save_custom_command_lookup name description steps created_by (d : t) :
  fst (save_custom_command name description steps created_by d) = true ->
  exists row,
    get_custom_command name (snd (save_custom_command name description steps created_by d))
    = Some row
    /\ cmd_steps row = steps.
Proof.
  unfold save_custom_command. destruct description as [description|]; simpl; [|done].
  destruct (existsb (fun r => bool_decide (cmd_command_name r = name)) (custom_commands d))
    eqn:Hex; simpl; [done|]. intros _.
  eexists. split.
  - unfold get_custom_command; simpl. rewrite find_app_none.
    + simpl. by rewrite bool_decide_eq_true_2.
    + destruct (find _ (custom_commands d)) as [row|] eqn:Hfind; [|done].
      apply find_some in Hfind as [Hin Hrow].
      apply andb_true_iff in Hrow as [Hrow _].
      assert (existsb (fun r => bool_decide (cmd_command_name r = name)) (custom_commands d)
              = true); [|congruence].
      apply existsb_exists. eauto.
  - reflexivity.
Qed.

Lemma NoDup_snoc {A} (l : list A) (x : A) : NoDup l -> ~ In x l -> NoDup (l ++ [x]).
Proof.
  intros Hl Hx. apply NoDup_app. split; [done|]. split.
  - intros y Hy Hy'. apply list_elem_of_In in Hy. apply list_elem_of_In in Hy'.
    destruct Hy' as [<- | []]. by apply Hx.
  - apply NoDup_singleton.
Qed.

(** X8: The write operations keep the uniqueness constraints of the schema: no
    two capability rows share (bot_name, capability_id) and no two command
    rows share a name, whatever is registered or saved. *)
Theorem store_writes_keep_rows_unique (d : t) :
  unique_capabilities d ->
  unique_commands d ->
  (forall bot cap description parameters permissions_required,
      let d1 := snd (register_capability bot cap description parameters
                       permissions_required d) in
      unique_capabilities d1 /\ unique_commands d1)
  /\ (forall name description steps created_by,
         let d1 := snd (save_custom_command name description steps created_by d) in
         unique_capabilities d1 /\ unique_commands d1).
Proof.
  intros Hcaps Hcmds. split.
  - intros bot cap description parameters permissions_required.
    unfold register_capability.
    destruct cap as [cap|]; [|done]. destruct description as [description|]; [|done].
    destruct (existsb (same_capability_key bot cap) (capabilities d)) eqn:Hex; simpl;
      [done|]. split; [|done].
    unfold unique_capabilities; simpl. rewrite map_app. simpl.
    apply NoDup_snoc; [done|]. intros Hin. apply in_map_iff in Hin as (row & Hkey & Hin).
    assert (existsb (same_capability_key bot cap) (capabilities d) = true); [|congruence].
    apply existsb_exists. exists row. split; [done|].
    inversion Hkey. unfold same_capability_key. by rewrite !bool_decide_eq_true_2.
  - intros name description steps created_by. unfold save_custom_command.
    destruct description as [description|]; [|done].
    destruct (existsb _ (custom_commands d)) eqn:Hex; simpl; [done|]. split; [done|].
    unfold unique_commands; simpl. rewrite map_app. simpl.
    apply NoDup_snoc; [done|]. intros Hin. apply in_map_iff in Hin as (row & Hkey & Hin).
    assert (existsb (fun r => bool_decide (cmd_command_name r = name)) (custom_commands d)
            = true); [|congruence].
    apply existsb_exists. exists row. split; [done|]. by apply bool_decide_eq_true.
Qed.

Lemma store_writes_keep_rows_unique_witness :
  unique_capabilities
    (snd (register_capability "weather" (Some "forecast") (Some "F") None None empty))
  /\ unique_commands (snd (save_custom_command "go" (Some "") [] "admin" empty)).
Proof.
  destruct (store_writes_keep_rows_unique empty) as [Hreg Hsave].
  - vm_compute. constructor.
  - vm_compute. constructor.
  - split.
    + apply (Hreg "weather" (Some "forecast") (Some "F") None None).
    + apply (Hsave "go" (Some "") [] "admin").
Defined.




End Store.

(** * Further properties of the capability registry *)

Section RegistryLookups.
Import CapabilityRegistry.

Lemma get_capability_result bot cap w :
  fst (get_capability bot cap w)
  = match capabilities_cache w !! cache_key bot cap with
    | Some c => Some c
    | None => dict_of_row <$> Database.get_capability bot cap (db w)
    end.
Proof.
  unfold get_capability. destruct (capabilities_cache w !! _); [done|].
  by destruct (Database.get_capability bot cap (db w)).
Qed.

Lemma get_capability_cache_grows bot cap w :
  capabilities_cache w ⊆ capabilities_cache (snd (get_capability bot cap w)).
Proof.
  unfold get_capability.
  destruct (capabilities_cache w !! cache_key bot cap) eqn:Hmiss; [done|].
  destruct (Database.get_capability bot cap (db w)); [|done].
  simpl. by apply insert_subseteq.
Qed.

Lemma get_capability_read_through_none bot cap w :
  fst (get_capability bot cap w) = None -> get_capability bot cap w = (None, w).
Proof.
  unfold get_capability. destruct (capabilities_cache w !! _); [done|].
  by destruct (Database.get_capability bot cap (db w)).
Qed.

(** X10: Read-through caching: whatever a lookup returned, repeating it returns
    the same answer and changes nothing more.  A lookup never writes to the
    store, only ever adds to the cache, and answers [None] exactly when
    neither the cache nor the store knows the pair. *)
Theorem get_capability_read_through (w : World) (bot cap : option string) :
  let first := get_capability bot cap w in
  get_capability bot cap (snd first) = first
  /\ db (snd first) = db w
  /\ capabilities_cache w ⊆ capabilities_cache (snd first)
  /\ (fst first = None <->
      capabilities_cache w !! cache_key bot cap = None
      /\ Database.get_capability bot cap (db w) = None).
Proof.
  split; [|split; [|split]].
  - unfold get_capability.
    destruct (capabilities_cache w !! cache_key bot cap) eqn:Hhit; simpl.
    + by rewrite Hhit.
    + destruct (Database.get_capability bot cap (db w)) eqn:Hrow; simpl.
      * by rewrite lookup_insert_eq.
      * by rewrite Hhit, Hrow.
  - by destruct (get_capability_frame bot cap w _ _ (surjective_pairing _)) as (_ & -> & _).
  - apply get_capability_cache_grows.
  - rewrite get_capability_result.
    destruct (capabilities_cache w !! cache_key bot cap); [split; [done | by intros [? _]]|].
    destruct (Database.get_capability bot cap (db w)); simpl;
      [split; [done | by intros [_ ?]] | done].
Qed.

Lemma db_get_capability_is_Some bot cap d :
  is_Some (Database.get_capability (Some bot) (Some cap) d)
  <-> existsb (Database.same_capability_key bot cap) (Database.capabilities d) = true.
Proof.
  rewrite db_get_capability_key, existsb_find.
  destruct (find _ _); split; (done || by intros [? ?] || eauto).
Qed.

Lemma db_get_capability_app bot cap d rows :
  is_Some (find (fun r => sql_eq (Some (Database.cap_bot_name r)) bot
                          && sql_eq (Some (Database.cap_capability_id r)) cap)
             (Database.capabilities d)) ->
  is_Some (find (fun r => sql_eq (Some (Database.cap_bot_name r)) bot
                          && sql_eq (Some (Database.cap_capability_id r)) cap)
             (Database.capabilities d ++ rows)).
Proof. intros [row Hrow]. rewrite (find_app_some _ _ _ _ Hrow). eauto. Qed.

(** What one registration does to the store. *)
Lemma register_capability_effect bot cap description parameters permissions_required w :
  let done := register_capability bot cap description parameters permissions_required w in
  (forall id text, cap = Some id -> description = Some text ->
     is_Some (Database.get_capability (Some bot) (Some id) (db (snd done))))
  /\ (forall b c, is_Some (Database.get_capability b c (db w)) ->
                  is_Some (Database.get_capability b c (db (snd done))))
  /\ length (Database.capabilities (db (snd done)))
     = length (Database.capabilities (db w)) + (if fst done then 1 else 0)
  /\ length (Database.audit_logs (db (snd done)))
     = length (Database.audit_logs (db w)) + (if fst done then 1 else 0)
  /\ Database.permissions (db (snd done)) = Database.permissions (db w)
  /\ Database.custom_commands (db (snd done)) = Database.custom_commands (db w)
  /\ bot_handlers (snd done) = bot_handlers w
  /\ calls (snd done) = calls w
  /\ (fst done = true -> is_Some cap /\ is_Some description).
Proof.
  unfold register_capability, Database.register_capability.
  destruct cap as [id|]; [destruct description as [text|]|]; simpl.
  2-3: by repeat split; try done; lia.
  destruct (existsb (Database.same_capability_key bot id) (Database.capabilities (db w)))
    eqn:Hex; simpl.
  - split.
    { intros id' text' Hid _. inversion Hid; subst id'.
      by apply db_get_capability_is_Some. }
    repeat split; try done; lia.
  - split.
    { intros id' text' Hid _. inversion Hid; subst id'.
      rewrite db_get_capability_key; simpl. erewrite find_app_fresh; [by eauto | |].
      - rewrite existsb_find in Hex. by destruct (find _ _).
      - apply (same_capability_key_registered_row bot id text parameters
                 permissions_required). }
    split; [intros b c; apply db_get_capability_app|].
    rewrite !length_app; simpl. repeat split; try done; try lia; eauto.
Qed.

Lemma filter_length_cons {A} (f : A -> bool) (x : A) (l : list A) :
  length (List.filter f l) <= length (List.filter f (x :: l))
  /\ (f x = true -> length (List.filter f (x :: l)) = S (length (List.filter f l))).
Proof. simpl. destruct (f x); simpl; split; (lia || done). Qed.

Lemma register_from_effect bot capabilities count w :
  let done := register_from bot capabilities count w in
  exists k,
    fst done = count + k
    /\ k <= length (List.filter api_registrable capabilities)
    /\ length (Database.capabilities (db (snd done)))
       = length (Database.capabilities (db w)) + k
    /\ length (Database.audit_logs (db (snd done)))
       = length (Database.audit_logs (db w)) + k
    /\ (forall b c, is_Some (Database.get_capability b c (db w)) ->
                    is_Some (Database.get_capability b c (db (snd done))))
    /\ (forall cap id, In cap capabilities ->
          d_capability_id cap = Value id -> id <> "" -> d_description cap <> Null ->
          is_Some (Database.get_capability (Some bot) (Some id) (db (snd done)))).
Proof.
  revert count w. induction capabilities as [|cap rest IH]; intros count w.
  - exists 0. simpl. repeat split; try done; lia.
  - pose proof (filter_length_cons api_registrable cap rest) as [Hskip Hkeep].
    cbn [register_from].
    destruct (opt_str_truthy (dict_get (d_capability_id cap))) eqn:Htruthy; cbn [negb].
    + pose proof (register_capability_effect bot (dict_get (d_capability_id cap))
                    (dict_get_default "" (d_description cap))
                    (dict_get_default (JDict []) (d_parameters cap))
                    (dict_get_default [] (d_permissions_required cap)) w)
        as (Hnow & Hmono0 & Hcaps & Haudit & _ & _ & _ & _ & Hsome).
      assert (Hheld : forall id, d_capability_id cap = Value id ->
                        d_description cap <> Null ->
                        is_Some (Database.get_capability (Some bot) (Some id)
                                   (db (snd (register_capability bot
                                               (dict_get (d_capability_id cap))
                                               (dict_get_default "" (d_description cap))
                                               (dict_get_default (JDict []) (d_parameters cap))
                                               (dict_get_default []
                                                  (d_permissions_required cap)) w))))).
      { intros id Hid Hdesc.
        destruct (d_description cap) as [| |text] eqn:Hd; [|done|].
        - apply (Hnow id ""); [by rewrite Hid | done].
        - apply (Hnow id text); [by rewrite Hid | done]. }
      destruct (register_capability bot _ _ _ _ w) as [[|] w1]; simpl in *.
      * destruct (IH (count + 1) w1) as (k & Hk & Hle & Hc & Ha & Hmono & Hall).
        assert (Hreg : api_registrable cap = true).
        { unfold api_registrable. rewrite Htruthy. simpl.
          destruct (Hsome eq_refl) as [_ [text Htext]].
          by destruct (d_description cap). }
        exists (S k). split; [lia|]. split; [rewrite (Hkeep Hreg); lia|].
        split; [lia|]. split; [lia|]. split; [by auto|].
        intros cap' id' [<- | Hin] Hid' Hne Hdesc; [|by eauto].
        by apply Hmono, Hheld.
      * destruct (IH count w1) as (k & Hk & Hle & Hc & Ha & Hmono & Hall).
        exists k. split; [lia|]. split; [lia|].
        split; [lia|]. split; [lia|]. split; [by auto|].
        intros cap' id' [<- | Hin] Hid' Hne Hdesc; [|by eauto].
        by apply Hmono, Hheld.
    + destruct (IH count w) as (k & Hk & Hle & Hc & Ha & Hmono & Hall).
      exists k. split; [done|]. split; [lia|]. split; [done|]. split; [done|].
      split; [done|].
      intros cap' id' [<- | Hin] Hid' Hne Hdesc; [|by eauto].
      rewrite Hid' in Htruthy. simpl in Htruthy. unfold str_truthy in Htruthy.
      by rewrite bool_decide_eq_false_2 in Htruthy.
Qed.

(** X11: [register_capabilities_from_api] returns the number of rows it added to
    the store, one [capability_registered] audit entry being written per
    row.  A descriptor without a capability id (the key missing, [null] or
    empty), one whose description is [null], which the store refuses, or
    one already registered is passed over without stopping the loop and is
    not counted.  Afterwards every descriptor that names a capability and
    whose description is not [null] is held by the store and resolves in
    the registry. *)
Theorem register_capabilities_from_api_count (w : World) (bot : string)
    (capabilities : list Descriptor) :
  let done := register_capabilities_from_api bot capabilities w in
  fst done <= length (List.filter api_registrable capabilities)
  /\ length (List.filter api_registrable capabilities) <= length capabilities
  /\ length (Database.capabilities (db (snd done)))
     = length (Database.capabilities (db w)) + fst done
  /\ length (Database.audit_logs (db (snd done)))
     = length (Database.audit_logs (db w)) + fst done
  /\ (forall cap id, In cap capabilities ->
        d_capability_id cap = Value id -> id <> "" -> d_description cap <> Null ->
        is_Some (Database.get_capability (Some bot) (Some id) (db (snd done)))
        /\ is_Some (fst (get_capability (Some bot) (Some id) (snd done)))).
Proof.
  unfold register_capabilities_from_api.
  destruct (register_from_effect bot capabilities 0 w)
    as (k & Hk & Hle & Hc & Ha & _ & Hall).
  simpl in Hk. rewrite Hk. split; [done|].
  split; [apply List.filter_length_le|]. split; [done|]. split; [done|].
  intros cap id Hin Hid Hne Hdesc. split; [by eapply Hall|].
  rewrite get_capability_result.
  destruct (capabilities_cache _ !! _); [eauto|].
  destruct (Hall cap id Hin Hid Hne Hdesc) as [row ->]. simpl. eauto.
Qed.

Lemma register_file_capabilities_app bot (pre rest : list Descriptor) w :
  register_file_capabilities bot (pre ++ rest)%list w
  = match register_file_capabilities bot pre w with
    | (Return _, w1) => register_file_capabilities bot rest w1
    | failed => failed
    end.
Proof.
  revert w. induction pre as [|cap pre IH]; intros w; simpl; [done|].
  destruct (dict_item "capability_id" (d_capability_id cap)); [|done].
  destruct (dict_item "description" (d_description cap)); [|done]. apply IH.
Qed.

Lemma dict_item_present {A} key (f : Field A) :
  f <> Missing -> dict_item key f = Return (dict_get f).
Proof. by destruct f. Qed.

Lemma register_file_capabilities_complete bot capabilities w :
  Forall descriptor_complete capabilities ->
  exists w1,
    register_file_capabilities bot capabilities w = (Return tt, w1)
    /\ length (Database.capabilities (db w1))
       <= length (Database.capabilities (db w))
          + length (List.filter descriptor_has_values capabilities)
    /\ (forall b c, is_Some (Database.get_capability b c (db w)) ->
                    is_Some (Database.get_capability b c (db w1)))
    /\ (forall cap id text, In cap capabilities ->
          d_capability_id cap = Value id -> d_description cap = Value text ->
          is_Some (Database.get_capability (Some bot) (Some id) (db w1))).
Proof.
  revert w. induction capabilities as [|cap rest IH]; intros w Hall.
  - exists w. simpl. repeat split; try done; lia.
  - inversion Hall as [|? ? [Hid Hdesc] Hrest]; subst.
    pose proof (filter_length_cons descriptor_has_values cap rest) as [Hskip Hkeep].
    cbn [register_file_capabilities].
    rewrite (dict_item_present _ _ Hid), (dict_item_present _ _ Hdesc).
    pose proof (register_capability_effect bot (dict_get (d_capability_id cap))
                  (dict_get (d_description cap))
                  (dict_get_default (JDict []) (d_parameters cap))
                  (dict_get_default [] (d_permissions_required cap)) w)
      as (Hnow & Hkeep0 & Hcaps & _ & _ & _ & _ & _ & Hsome).
    destruct (IH (snd (register_capability bot (dict_get (d_capability_id cap))
                         (dict_get (d_description cap))
                         (dict_get_default (JDict []) (d_parameters cap))
                         (dict_get_default [] (d_permissions_required cap)) w)) Hrest)
      as (w1 & Hrun & Hlen & Hmono & Hin).
    exists w1. split; [done|]. split.
    { simpl in Hcaps. rewrite Hcaps in Hlen.
      destruct (fst (register_capability bot _ _ _ _ w)) eqn:Hfst; [|lia].
      rewrite Hkeep; [lia|].
      destruct (Hsome eq_refl) as [[id Hid'] [text Htext]].
      unfold descriptor_has_values.
      destruct (d_capability_id cap); try discriminate.
      by destruct (d_description cap). }
    split; [by auto|].
    intros cap' id' text' [<- | Hin'] Hid' Hdesc'; [|by eauto].
    apply Hmono, (Hnow id' text'); [by rewrite Hid' | by rewrite Hdesc'].
Qed.

(** X12: [load_capabilities_from_file] on a file whose [bot_name] is set.  When
    every descriptor has a [capability_id] and a [description] key, the
    load returns: every descriptor whose two keys hold strings ends up in
    the store, one with an empty id included, and a descriptor that holds
    [null] under one of them adds no row, the refusal of the store being
    ignored.  Otherwise the first descriptor lacking one of the two keys
    raises [KeyError]: the descriptors before it were handled in the same
    way and those after it are never looked at. *)
Theorem load_capabilities_from_file_missing_key (w : World) (file_path : string)
    (files : string -> option (py_result CapabilityFile)) (data : CapabilityFile)
    (bot : string) (capabilities : list Descriptor) :
  files file_path = Some (Return data) ->
  file_bot_name data = Value bot ->
  bot <> "" ->
  file_capabilities data = Value capabilities ->
  (Forall descriptor_complete capabilities ->
   exists w1,
     load_capabilities_from_file file_path files w = (Return tt, w1)
     /\ length (Database.capabilities (db w1))
        <= length (Database.capabilities (db w))
           + length (List.filter descriptor_has_values capabilities)
     /\ forall cap id text, In cap capabilities ->
          d_capability_id cap = Value id -> d_description cap = Value text ->
          is_Some (Database.get_capability (Some bot) (Some id) (db w1)))
  /\ (forall (pre : list Descriptor) (bad : Descriptor) (post : list Descriptor),
        capabilities = (pre ++ bad :: post)%list ->
        Forall descriptor_complete pre ->
        ~ descriptor_complete bad ->
        exists w1,
          load_capabilities_from_file file_path files w
          = (Raise (match d_capability_id bad with
                    | Missing => "'capability_id'"
                    | Null | Value _ => "'description'"
                    end), w1)
          /\ register_file_capabilities bot pre w = (Return tt, w1)
          /\ length (Database.capabilities (db w1))
             <= length (Database.capabilities (db w))
                + length (List.filter descriptor_has_values pre)
          /\ forall cap id text, In cap pre ->
               d_capability_id cap = Value id -> d_description cap = Value text ->
               is_Some (Database.get_capability (Some bot) (Some id) (db w1))).
Proof.
  intros Hfile Hbot Hne Hcaps.
  assert (Hload : load_capabilities_from_file file_path files w
                  = register_file_capabilities bot capabilities w).
  { unfold load_capabilities_from_file. rewrite Hfile, Hbot, Hcaps. simpl.
    unfold str_truthy. by rewrite bool_decide_eq_false_2. }
  rewrite Hload. split.
  - intros Hall.
    destruct (register_file_capabilities_complete bot capabilities w Hall)
      as (w1 & Hrun & Hlen & _ & Hin).
    eauto.
  - intros pre bad post -> Hpre Hbad.
    destruct (register_file_capabilities_complete bot pre w Hpre)
      as (w1 & Hrun & Hlen & _ & Hin).
    exists w1. rewrite register_file_capabilities_app, Hrun. simpl.
    split; [|by eauto].
    destruct (d_capability_id bad) eqn:Hid; simpl; [done| |];
      (destruct (d_description bad) eqn:Hdesc; simpl; [done| |]);
      destruct Hbad; split; congruence.
Qed.

Lemma load_capabilities_from_file_missing_key_witness :
  exists w1,
    load_capabilities_from_file "weather.json" sample_files empty_world
    = (Raise "'description'", w1)
    /\ is_Some (Database.get_capability (Some "weather") (Some "forecast") (db w1))
    /\ length (Database.capabilities (db w1)) <= 1.
Proof.
  destruct (load_capabilities_from_file_missing_key empty_world "weather.json"
              sample_files weather_file "weather"
              [forecast_descriptor; null_descriptor; nameless_descriptor;
               forecast_descriptor]
              eq_refl eq_refl ltac:(discriminate) eq_refl) as [_ Hstop].
  destruct (Hstop [forecast_descriptor; null_descriptor] nameless_descriptor
              [forecast_descriptor] eq_refl)
    as (w1 & Hrun & _ & Hlen & Hin).
  - repeat constructor; vm_compute; discriminate.
  - intros [_ Hdesc]. by apply Hdesc.
  - exists w1. split; [exact Hrun|]. split; [|exact Hlen].
    apply (Hin forecast_descriptor "forecast" "Forecast"); [by left | done | done].
Defined.

(** ** Validation of command steps *)

Lemma get_capability_some_cached bot cap w x w1 :
  get_capability bot cap w = (Some x, w1) ->
  capabilities_cache w1 !! cache_key bot cap = Some x.
Proof.
  unfold get_capability.
  destruct (capabilities_cache w !! cache_key bot cap) eqn:Hhit.
  - intros H; inversion H; by subst.
  - destruct (Database.get_capability bot cap (db w)); intros H; inversion H; subst.
    simpl. apply lookup_insert_eq.
Qed.

Lemma validate_from_effect i steps w ok err w1 :
  validate_from i steps w = ((ok, err), w1) ->
  db w1 = db w /\ calls w1 = calls w /\ bot_handlers w1 = bot_handlers w
  /\ capabilities_cache w ⊆ capabilities_cache w1
  /\ (ok = true ->
      err = None
      /\ forall step, In step steps ->
           opt_str_truthy (step_bot_name step) = true
           /\ opt_str_truthy (step_capability_id step) = true
           /\ is_Some (capabilities_cache w1
                         !! cache_key (step_bot_name step) (step_capability_id step)))
  /\ (ok = false -> is_Some err).
Proof.
  revert i w. induction steps as [|step rest IH]; intros i w; simpl.
  - intros H; inversion H; subst. repeat split; done.
  - destruct (opt_str_truthy (step_bot_name step)) eqn:Hbot; simpl.
    2:{ intros H; inversion H; subst. repeat split; try done; eauto. }
    destruct (opt_str_truthy (step_capability_id step)) eqn:Hcap; simpl.
    2:{ intros H; inversion H; subst. repeat split; try done; eauto. }
    destruct (get_capability (step_bot_name step) (step_capability_id step) w)
      as [[x|] w0] eqn:Hres.
    + intros Hrest.
      destruct (IH _ _ Hrest) as (Hdb & Hcalls & Hh & Hsub & Hok & Hfail).
      pose proof (get_capability_frame _ _ _ _ _ Hres) as (Hc0 & Hd0 & Hh0 & _).
      pose proof (get_capability_cache_grows (step_bot_name step)
                    (step_capability_id step) w) as Hgrow.
      rewrite Hres in Hgrow. simpl in Hgrow.
      split; [congruence|]. split; [congruence|]. split; [congruence|].
      split; [by etrans|]. split; [|done].
      intros ->. destruct (Hok eq_refl) as [-> Hall]. split; [done|].
      intros step' [<- | Hin]; [|by auto].
      split; [done|]. split; [done|].
      apply (lookup_weaken_is_Some (capabilities_cache w0)); [|done].
      rewrite (get_capability_some_cached _ _ _ _ _ Hres). eauto.
    + intros H; inversion H; subst.
      pose proof (get_capability_frame _ _ _ _ _ Hres) as (Hc0 & Hd0 & Hh0 & _).
      pose proof (get_capability_cache_grows (step_bot_name step)
                    (step_capability_id step) w) as Hgrow.
      rewrite Hres in Hgrow. simpl in Hgrow.
      repeat split; try done; eauto.
Qed.

(** X13: A step list accepted by [validate_command_steps]: no error message is
    returned, every step names a bot and a capability, and afterwards every
    step resolves from the registry cache.  Validation reads only: the
    store, the audit log and the handlers are untouched. *)
Theorem validate_command_steps_accepted (w : World) (steps : list Step)
    (err : option string) (w1 : World) :
  validate_command_steps steps w = ((true, err), w1) ->
  err = None
  /\ db w1 = db w /\ calls w1 = calls w /\ bot_handlers w1 = bot_handlers w
  /\ forall step, In step steps ->
       opt_str_truthy (step_bot_name step) = true
       /\ opt_str_truthy (step_capability_id step) = true
       /\ exists capability,
            get_capability (step_bot_name step) (step_capability_id step) w1
            = (Some capability, w1).
Proof.
  intros Hrun.
  destruct (validate_from_effect _ _ _ _ _ _ Hrun) as (Hdb & Hcalls & Hh & _ & Hok & _).
  destruct (Hok eq_refl) as [-> Hall].
  split; [done|]. split; [done|]. split; [done|]. split; [done|].
  intros step Hin. destruct (Hall step Hin) as (Hb & Hc & [x Hx]).
  split; [done|]. split; [done|].
  exists x. by apply get_capability_cached.
Qed.

Lemma validate_command_steps_accepted_witness :
  (exists capability,
      get_capability (Some "alpha") (Some "prepare") pipeline_world
      = (Some capability, pipeline_world))
  /\ (exists capability,
        get_capability (Some "beta") (Some "apply") pipeline_world
        = (Some capability, pipeline_world)).
Proof.
  destruct (validate_command_steps_accepted pipeline_world
              [mk_step "alpha" "prepare"; mk_step "beta" "apply"] None pipeline_world)
    as (_ & _ & _ & _ & Hall); [vm_compute; reflexivity|].
  split.
  - destruct (Hall (mk_step "alpha" "prepare")) as (_ & _ & Hcap); [by left | exact Hcap].
  - destruct (Hall (mk_step "beta" "apply")) as (_ & _ & Hcap);
      [by right; left | exact Hcap].
Defined.

Lemma step_resolvable_after_lookup bot cap w step :
  step_resolvable w step -> step_resolvable (snd (get_capability bot cap w)) step.
Proof.
  intros (Hb & Hc & Hknown). split; [done|]. split; [done|].
  destruct Hknown as [Hcache | Hstore].
  - left. eapply lookup_weaken_is_Some; [done | apply get_capability_cache_grows].
  - right. by destruct (get_capability_frame bot cap w _ _ (surjective_pairing _))
      as (_ & -> & _).
Qed.

Lemma validate_from_resolvable i steps w :
  (forall step, In step steps -> step_resolvable w step) ->
  fst (validate_from i steps w) = (true, None).
Proof.
  revert i w. induction steps as [|step rest IH]; intros i w Hall; simpl; [done|].
  destruct (Hall step (or_introl eq_refl)) as (Hb & Hc & Hknown).
  rewrite Hb, Hc. simpl.
  pose proof (get_capability_result (step_bot_name step) (step_capability_id step) w)
    as Hres.
  destruct (get_capability (step_bot_name step) (step_capability_id step) w)
    as [[x|] w0] eqn:Hget; simpl in Hres.
  - apply IH. intros step' Hin.
    pose proof (step_resolvable_after_lookup (step_bot_name step)
                  (step_capability_id step) w step' (Hall step' (or_intror Hin))) as Hkeep.
    by rewrite Hget in Hkeep.
  - destruct Hknown as [[c Hcache] | [row Hrow]].
    + by rewrite Hcache in Hres.
    + rewrite Hrow in Hres. by destruct (capabilities_cache w !! _).
Qed.

(** X14: Every step list whose steps all name a bot and a capability known to
    the cache or to the store is accepted by [validate_command_steps]. *)
Theorem validate_command_steps_all_resolvable (w : World) (steps : list Step) :
  (forall step, In step steps -> step_resolvable w step) ->
  fst (validate_command_steps steps w) = (true, None).
Proof. apply validate_from_resolvable. Qed.

Lemma validate_command_steps_all_resolvable_witness :
  fst (validate_command_steps
         [mk_step "alpha" "prepare"; mk_step "beta" "apply"; mk_step "gamma" "finish"]
         pipeline_world) = (true, None).
Proof.
  apply (validate_command_steps_all_resolvable pipeline_world).
  intros step Hin.
  destruct Hin as [<- | [<- | [<- | []]]];
    (split; [reflexivity|]; split; [reflexivity|]; left; vm_compute; eauto).
Defined.

Lemma validate_from_app i (pre rest : list Step) w :
  validate_from i (pre ++ rest)%list w
  = match validate_from i pre w with
    | ((true, _), w1) => validate_from (i + length pre) rest w1
    | failed => failed
    end.
Proof.
  revert i w. induction pre as [|step pre IH]; intros i w; simpl.
  - by rewrite Nat.add_0_r.
  - destruct (negb (opt_str_truthy (step_bot_name step))
              || negb (opt_str_truthy (step_capability_id step))); [done|].
    destruct (get_capability (step_bot_name step) (step_capability_id step) w)
      as [[x|] w0]; [|done].
    rewrite IH. by replace (S i + length pre) with (i + S (length pre)) by lia.
Qed.

(** X15: [validate_command_steps] stops at the first step that is not valid and
    reports its position counted from 1: a step without a bot name or
    capability id is reported as such, a step that does not resolve as a
    capability not found.  The steps after it are not examined. *)
Theorem validate_command_steps_first_error (w : World)
    (pre : list Step) (step : Step) (post : list Step) (w1 : World) :
  validate_command_steps pre w = ((true, None), w1) ->
  (opt_str_truthy (step_bot_name step) && opt_str_truthy (step_capability_id step) = false ->
   validate_command_steps (pre ++ step :: post)%list w
   = ((false, Some ("Step " ++ pretty (length pre + 1)%nat
                    ++ " missing bot_name or capability_id")), w1))
  /\ (opt_str_truthy (step_bot_name step) && opt_str_truthy (step_capability_id step) = true ->
      fst (get_capability (step_bot_name step) (step_capability_id step) w1) = None ->
      validate_command_steps (pre ++ step :: post)%list w
      = ((false, Some ("Step " ++ pretty (length pre + 1)%nat ++ ": Capability "
                       ++ squote ++ py_str (step_capability_id step) ++ squote
                       ++ " not found for bot "
                       ++ squote ++ py_str (step_bot_name step) ++ squote)), w1)).
Proof.
  unfold validate_command_steps. intros Hpre. split.
  - intros Hnames. rewrite validate_from_app, Hpre. simpl.
    destruct (opt_str_truthy (step_bot_name step)),
      (opt_str_truthy (step_capability_id step)); try done.
  - intros Hnames Hmiss. rewrite validate_from_app, Hpre. simpl.
    apply andb_true_iff in Hnames as [-> ->]. simpl.
    pose proof (get_capability_read_through_none (step_bot_name step)
                  (step_capability_id step) w1 Hmiss) as ->.
    reflexivity.
Qed.

Lemma validate_command_steps_first_error_witness :
  validate_command_steps [mk_step "alpha" "prepare"; anonymous_step; mk_step "beta" "apply"]
    pipeline_world
  = ((false, Some "Step 2 missing bot_name or capability_id"), pipeline_world)
  /\ validate_command_steps [mk_step "alpha" "prepare"; mk_step "alpha" "vanished"]
       pipeline_world
     = ((false, Some ("Step 2: Capability " ++ squote ++ "vanished" ++ squote
                      ++ " not found for bot " ++ squote ++ "alpha" ++ squote)),
        pipeline_world).
Proof.
  split.
  - apply (validate_command_steps_first_error pipeline_world [mk_step "alpha" "prepare"]
             anonymous_step [mk_step "beta" "apply"] pipeline_world);
      vm_compute; reflexivity.
  - apply (validate_command_steps_first_error pipeline_world [mk_step "alpha" "prepare"]
             (mk_step "alpha" "vanished") [] pipeline_world);
      vm_compute; reflexivity.
Defined.

(** ** Capabilities served from the store *)

Lemma level_rank_char (c : Ascii.ascii) : Database.level_rank (String c "") = 0.
Proof. unfold Database.level_rank. by rewrite !bool_decide_eq_false_2. Qed.

Lemma str_chars_rank_zero (text level : string) :
  In level (str_chars text) -> Database.level_rank level = 0.
Proof.
  induction text as [|c rest IH]; simpl; [done|].
  intros [<- | Hin]; [apply level_rank_char | by apply IH].
Qed.

Lemma existsb_constant {A} (f : A -> bool) (l : list A) (b : bool) :
  l <> [] -> (forall x, In x l -> f x = b) -> existsb f l = b.
Proof.
  intros Hne Hall. induction l as [|x l IH]; [done|]. simpl.
  rewrite (Hall x (or_introl eq_refl)). destruct b; [done|]. simpl.
  destruct l as [|y l']; [done|]. apply IH; [done|]. intros z Hz. apply Hall. by right.
Qed.

Lemma permission_denied_row_backed user bot cap (row : Database.CapabilityRow) w :
  Database.cap_permissions_required row <> "" ->
  CommandExecutor.permission_denied user bot cap (dict_of_row row) w
  = negb (existsb (any_grant user bot cap) (Database.permissions (db w))).
Proof.
  intros Htext. unfold CommandExecutor.permission_denied, CommandExecutor.has_permission.
  simpl. unfold str_truthy. rewrite bool_decide_eq_false_2 by done. simpl. f_equal.
  apply existsb_constant.
  - destruct (Database.cap_permissions_required row); [done | discriminate].
  - intros level Hin. apply check_permission_rank_zero.
    by eapply str_chars_rank_zero.
Qed.

(** X16: A capability that is answered from the store, as happens on a cache
    miss, carries the JSON text of its [permissions_required] column.  For
    a row written by [register_capability], whatever permissions were
    declared (none included), the executor's gate then refuses exactly the
    callers that have no permission row matching in any tier, and lets
    every other caller through whatever the level of the row. *)
Theorem stored_capability_gate (w : World) (bot cap description : string)
    (parameters : option json) (permissions_required : option (list string)) :
  capabilities_cache w !! cache_key (Some bot) (Some cap) = None ->
  Database.get_capability (Some bot) (Some cap) (db w)
  = Some (registered_row bot cap description parameters permissions_required) ->
  exists capability w1,
    get_capability (Some bot) (Some cap) w = (Some capability, w1)
    /\ db w1 = db w
    /\ forall user,
         CommandExecutor.permission_denied user (Some bot) (Some cap) capability w1
         = negb (existsb (any_grant user (Some bot) (Some cap))
                   (Database.permissions (db w))).
Proof.
  intros Hmiss Hrow. unfold get_capability. rewrite Hmiss, Hrow.
  do 2 eexists. split; [reflexivity|]. split; [done|].
  intros user. by rewrite permission_denied_row_backed.
Qed.

Lemma stored_capability_gate_witness :
  exists capability w1,
    get_capability (Some "alpha") (Some "prepare") cold_world = (Some capability, w1)
    /\ db w1 = db cold_world
    /\ forall user,
         CommandExecutor.permission_denied user (Some "alpha") (Some "prepare") capability w1
         = negb (existsb (any_grant user (Some "alpha") (Some "prepare"))
                   (Database.permissions (db cold_world))).
Proof.
  apply (stored_capability_gate cold_world "alpha" "prepare" "Prepare" None None);
    vm_compute; reflexivity.
Defined.

(** ** Building the registry from the store *)

Lemma get_all_capabilities_all_In (r : Database.CapabilityRow) (d : Database.t) :
  In r (Database.get_all_capabilities None d) <-> In r (Database.capabilities d).
Proof.
  unfold Database.get_all_capabilities. simpl.
  pose proof (@merge_sort_Permutation _ Database.capability_row_le
                Database.capability_row_le_dec (Database.capabilities d)) as Hperm.
  split; intros Hin.
  - by apply (Permutation_in _ Hperm).
  - by apply (Permutation_in _ (Permutation_sym Hperm)).
Qed.

Lemma load_rows_lookup (rows : list Database.CapabilityRow) (cache : gmap string Capability) :
  (forall row, In row rows ->
     exists row', In row' rows /\ row_key row' = row_key row
                  /\ fold_left load_row rows cache !! row_key row = Some (dict_of_row row'))
  /\ (forall k, (forall row, In row rows -> row_key row <> k) ->
                fold_left load_row rows cache !! k = cache !! k).
Proof.
  revert cache. induction rows as [|r rest IH]; intros cache; simpl.
  - split; [by intros row [] | done].
  - destruct (IH (load_row cache r)) as [IHin IHout].
    assert (Hout : forall k, (forall row, r = row \/ In row rest -> row_key row <> k) ->
                     fold_left load_row rest (load_row cache r) !! k = cache !! k).
    { intros k Hk. rewrite IHout by (intros row Hin; apply Hk; by right).
      unfold load_row. apply lookup_insert_ne. apply (Hk r). by left. }
    split; [|done].
    intros row [<- | Hin].
    + destruct (existsb (fun x => bool_decide (row_key x = row_key r)) rest) eqn:Hlater.
      * apply existsb_exists in Hlater as (row2 & Hin2 & Hkey2).
        apply bool_decide_eq_true in Hkey2.
        destruct (IHin row2 Hin2) as (row' & Hin' & Hkey' & Hlook).
        exists row'. split; [by right|]. split; [congruence|]. by rewrite <- Hkey2.
      * exists r. split; [by left|]. split; [done|].
        rewrite IHout.
        -- unfold load_row. apply lookup_insert_eq.
        -- intros row Hin Hkey.
           assert (existsb (fun x => bool_decide (row_key x = row_key r)) rest = true);
             [|congruence].
           apply existsb_exists. exists row. split; [done|]. by apply bool_decide_eq_true.
    + destruct (IHin row Hin) as (row' & Hin' & Hkey' & Hlook).
      exists row'. split; [by right | done].
Qed.

(** X17: A registry built on an existing store ([__init__], which loads every
    row into an empty cache) serves each stored pair from its cache, as the
    dictionary of a stored row with the same cache key, its
    [permissions_required] being the JSON text of that row.  When no row
    has an empty permissions column, the executor's gate on such a
    capability refuses exactly the callers without any matching permission
    row. *)
Theorem registry_init_serves_rows (w : World) (bot cap : string) :
  is_Some (Database.get_capability (Some bot) (Some cap) (db w)) ->
  let w1 := __init__ w in
  db w1 = db w
  /\ exists row,
       In row (Database.capabilities (db w))
       /\ row_key row = cache_key (Some bot) (Some cap)
       /\ get_capability (Some bot) (Some cap) w1 = (Some (dict_of_row row), w1)
       /\ (Database.cap_permissions_required row <> "" ->
           forall user,
             CommandExecutor.permission_denied user (Some bot) (Some cap)
               (dict_of_row row) w1
             = negb (existsb (any_grant user (Some bot) (Some cap))
                       (Database.permissions (db w)))).
Proof.
  intros [row0 Hrow0] w1. split; [done|].
  rewrite db_get_capability_key in Hrow0. apply find_some in Hrow0 as [Hin0 Hkey0].
  unfold Database.same_capability_key in Hkey0.
  apply andb_true_iff in Hkey0 as [Hb Hc].
  apply bool_decide_eq_true in Hb. apply bool_decide_eq_true in Hc.
  destruct (load_rows_lookup (Database.get_all_capabilities None (db w)) ∅) as [Hload _].
  destruct (Hload row0) as (row & Hin & Hkey & Hlook);
    [by apply get_all_capabilities_all_In|].
  exists row. split; [by apply get_all_capabilities_all_In in Hin|].
  assert (Hsame : row_key row = cache_key (Some bot) (Some cap)).
  { rewrite Hkey. unfold row_key. by rewrite Hb, Hc. }
  split; [done|]. split.
  - apply get_capability_cached. unfold w1, __init__, _load_capabilities_from_db; simpl.
    unfold row_key in Hlook. rewrite Hb, Hc in Hlook. exact Hlook.
  - intros Htext user. by rewrite permission_denied_row_backed.
Qed.

Lemma registry_init_serves_rows_witness :
  exists row,
    In row (Database.capabilities (db pipeline_world))
    /\ get_capability (Some "alpha") (Some "secure") (__init__ pipeline_world)
       = (Some (dict_of_row row), __init__ pipeline_world).
Proof.
  destruct (registry_init_serves_rows pipeline_world "alpha" "secure")
    as (_ & row & Hin & _ & Hget & _); [vm_compute; eauto|].
  exists row. by split.
Defined.

End RegistryLookups.

(** * Further properties of the command executor *)

Section Runs.
Import CommandExecutor.
Local Open Scope list_scope.

Lemma _execute_step_frame bot cap params ctx w sr w1 :
  _execute_step bot cap params ctx w = (sr, w1) ->
  bot_handlers w1 = bot_handlers w /\ requests w1 = requests w
  /\ capabilities_cache w1 = capabilities_cache w /\ db w1 = db w.
Proof.
  unfold _execute_step. destruct bot as [name|]; [|by inversion 1].
  destruct (bot_handlers w !! name); [|by inversion 1].
  destruct (BotHandler.invoke _ _ _ _ _ _) as [value|e];
    [|destruct (caught_str e)]; by inversion 1.
Qed.

Lemma numbered_nil : numbered [].
Proof. intros k o H. by rewrite lookup_nil in H. Qed.

Lemma succeeded_nil : Forall succeeded [].
Proof. constructor. Qed.

Lemma numbered_snoc l o :
  numbered l -> o_step o = length l + 1 -> numbered (l ++ [o]).
Proof.
  intros Hl Ho k o' Hlook.
  destruct (decide (k < length l)) as [Hlt|Hge].
  - rewrite lookup_app_l in Hlook by done. by apply Hl.
  - rewrite lookup_app_r in Hlook by lia.
    destruct (k - length l) as [|n] eqn:Hk; simpl in Hlook; [|by rewrite lookup_nil in Hlook].
    inversion Hlook; subst. rewrite Ho. lia.
Qed.

Section Loop.
Variables (command_name user_id username : string) (context : option json).
Variable total : nat.

Abbreviation body := (loop_body command_name user_id username context total).
Abbreviation loop := (for_loop command_name user_id username context total).

(** Everything one iteration of the loop does, however it ends. *)
Lemma loop_body_effect i step acc w res w1 :
  length acc = i ->
  body i step acc w = (res, w1) ->
  bot_handlers w1 = bot_handlers w /\ requests w1 = requests w
  /\ same_tables (db w) (db w1)
  /\ capabilities_cache w ⊆ capabilities_cache w1
  /\ exists new,
       calls w1 = calls w ++ new
       /\ match res with
          | Return (Next acc1) =>
              exists o, acc1 = acc ++ [o] /\ o_step o = i + 1 /\ succeeded o
                        /\ length new = 1
                        /\ Database.audit_logs (db w1) = Database.audit_logs (db w)
          | Return (Exit r) =>
              success r = false /\ is_Some (error r) /\ total_steps r = Some total
              /\ exists l row,
                   results r = Some l
                   /\ ((l = acc /\ new = [] /\ steps_executed r = Some i)
                       \/ (exists o, l = acc ++ [o] /\ o_step o = i + 1
                                     /\ o_success o = false /\ length new <= 1
                                     /\ steps_executed r = Some (i + 1))
                       \/ (l = acc /\ length new = 1
                           /\ steps_executed r = Some (i + 1)))
                   /\ Database.audit_logs (db w1) = Database.audit_logs (db w) ++ [row]
                   /\ command_executed_entry user_id username false row
          | Raise _ =>
              length new = 1
              /\ Database.audit_logs (db w1) = Database.audit_logs (db w)
          end.
Proof.
  intros Hlen. unfold loop_body.
  destruct (CapabilityRegistry.get_capability (step_bot_name step)
              (step_capability_id step) w) as [[capability|] w0] eqn:Hres;
    pose proof (get_capability_frame _ _ _ _ _ Hres) as (Hc0 & Hd0 & Hh0 & Hr0);
    pose proof (get_capability_cache_grows (step_bot_name step)
                  (step_capability_id step) w) as Hgrow;
    rewrite Hres in Hgrow; simpl in Hgrow.
  2:{ intros H; inversion H; subst res w1; simpl.
      split; [done|]. split; [done|].
      split; [unfold same_tables; simpl; by rewrite Hd0|]. split; [done|].
      exists []. rewrite app_nil_r. split; [done|].
      split; [done|]. split; [eauto|]. split; [done|].
      do 2 eexists. split; [reflexivity|]. split; [by left|].
      split; [by rewrite Hd0|]. by repeat split. }
  destruct (permission_denied user_id (step_bot_name step) (step_capability_id step)
              capability w0).
  { intros H; inversion H; subst res w1; simpl.
    split; [done|]. split; [done|].
    split; [unfold same_tables; simpl; by rewrite Hd0|]. split; [done|].
    exists []. rewrite app_nil_r. split; [done|].
    split; [done|]. split; [eauto|]. split; [done|].
    do 2 eexists. split; [reflexivity|]. split; [by left|].
    split; [by rewrite Hd0|]. by repeat split. }
  unfold dispatch.
  destruct (_execute_step (step_bot_name step) (step_capability_id step)
              (default (JDict []) (step_parameters step)) context w0)
    as [[sr|e] w2] eqn:Hcall;
    pose proof (_execute_step_calls _ _ _ _ _ _ _ Hcall) as (Hd2 & Hcalls2);
    pose proof (_execute_step_frame _ _ _ _ _ _ _ Hcall) as (Hh2 & Hr2 & Hcache2 & _).
  - destruct (sr_success sr) eqn:Hs; simpl.
    + intros H; inversion H; subst res w1.
      destruct (_execute_step_success _ _ _ _ _ _ _ Hcall Hs) as (name & _ & Hadd).
      split; [congruence|]. split; [congruence|].
      split; [unfold same_tables; by rewrite Hd2, Hd0|].
      split; [by rewrite Hcache2|].
      eexists. split; [by rewrite Hadd, Hc0|].
      eexists. split; [reflexivity|]. split; [done|]. split; [exact Hs|].
      split; [done|]. by rewrite Hd2, Hd0.
    + intros H; inversion H; subst res w1; simpl.
      split; [congruence|]. split; [congruence|].
      split; [unfold same_tables; simpl; by rewrite Hd2, Hd0|].
      split; [by rewrite Hcache2|].
      assert (Hnew : exists new, calls w2 = calls w ++ new /\ length new <= 1).
      { destruct Hcalls2 as [-> | (name & _ & ->)].
        - exists []. rewrite app_nil_r. split; [done | simpl; lia].
        - eexists. rewrite Hc0. split; [reflexivity | simpl; lia]. }
      destruct Hnew as (new & Hnew & Hle).
      exists new. split; [done|]. split; [done|]. split; [eauto|]. split; [done|].
      do 2 eexists. split; [reflexivity|]. split.
      { right; left. eexists. split; [reflexivity|]. by repeat split. }
      split; [by rewrite Hd2, Hd0|]. by repeat split.
  - destruct (_execute_step_raised _ _ _ _ _ _ _ Hcall)
      as (name & handler & e0 & _ & _ & _ & _ & Hadd).
    destruct (caught_str e) as [message|escaped]; intros H; inversion H; subst res w1; simpl.
    + split; [congruence|]. split; [congruence|].
      split; [unfold same_tables; simpl; by rewrite Hd2, Hd0|].
      split; [by rewrite Hcache2|].
      eexists. split; [by rewrite Hadd, Hc0|].
      split; [done|]. split; [eauto|]. split; [done|].
      do 2 eexists. split; [reflexivity|]. split.
      { right; right. by repeat split. }
      split; [by rewrite Hd2, Hd0|]. by repeat split.
    + split; [congruence|]. split; [congruence|].
      split; [unfold same_tables; by rewrite Hd2, Hd0|].
      split; [by rewrite Hcache2|].
      eexists. split; [by rewrite Hadd, Hc0|].
      split; [done|]. by rewrite Hd2, Hd0.
Qed.

(** Everything the loop does from step [i + 1] on, however it ends.  A
    result returned from inside the loop holds the successful outcomes
    [good], followed by the failed outcome of the last step if one was
    recorded; [steps_executed] counts these outcomes, and one more when
    the dispatch of the last step raised. *)
Lemma for_loop_effect steps i acc w res w1 :
  length acc = i -> numbered acc -> Forall succeeded acc ->
  loop i steps acc w = (res, w1) ->
  bot_handlers w1 = bot_handlers w /\ requests w1 = requests w
  /\ same_tables (db w) (db w1)
  /\ capabilities_cache w ⊆ capabilities_cache w1
  /\ exists new,
       calls w1 = calls w ++ new
       /\ match res with
          | Return (Next acc1) =>
              length acc1 = i + length steps /\ numbered acc1 /\ Forall succeeded acc1
              /\ length new = length steps
              /\ Database.audit_logs (db w1) = Database.audit_logs (db w)
          | Return (Exit r) =>
              success r = false /\ is_Some (error r) /\ total_steps r = Some total
              /\ exists good tail n row,
                   results r = Some (good ++ tail)
                   /\ steps_executed r = Some n
                   /\ length (good ++ tail) <= n
                   /\ n <= length good + 1
                   /\ n <= i + length steps
                   /\ numbered (good ++ tail)
                   /\ Forall succeeded good
                   /\ (tail = [] \/ exists o, tail = [o] /\ o_success o = false)
                   /\ length good < i + length steps
                   /\ length good <= i + length new
                   /\ i + length new <= n
                   /\ Database.audit_logs (db w1) = Database.audit_logs (db w) ++ [row]
                   /\ command_executed_entry user_id username false row
          | Raise _ =>
              1 <= length new <= length steps
              /\ Database.audit_logs (db w1) = Database.audit_logs (db w)
          end.
Proof.
  revert i acc w. induction steps as [|step rest IH]; intros i acc w Hlen Hnum Hok; simpl.
  - intros H; inversion H; subst res w1.
    split; [done|]. split; [done|]. split; [done|]. split; [done|].
    exists []. rewrite app_nil_r. split; [done|].
    split; [lia|]. by repeat split.
  - destruct (body i step acc w) as [[[r|acc1]|e] w0] eqn:Hbody.
    + intros H; inversion H; subst res w1.
      destruct (loop_body_effect i step acc w _ _ Hlen Hbody)
        as (Hh & Hr & Ht & Hc & new & Hcalls & Hs & He & Htot & l & row & Hres
            & Hshape & Haudit & Hrow).
      split; [done|]. split; [done|]. split; [done|]. split; [done|].
      exists new. split; [done|]. split; [done|]. split; [done|]. split; [done|].
      destruct Hshape as [(-> & -> & Hn) | [(o & -> & Ho & Hfail & Hle & Hn)
                                           | (-> & Hone & Hn)]].
      * exists acc, [], i, row. rewrite app_nil_r. simpl.
        split; [done|]. split; [done|]. split; [lia|]. split; [lia|]. split; [lia|].
        split; [done|]. split; [done|].
        split; [by left|]. split; [lia|]. split; [lia|]. split; [lia|]. done.
      * exists acc, [o], (i + 1), row.
        split; [done|]. split; [done|].
        rewrite length_app; simpl.
        split; [lia|]. split; [lia|]. split; [lia|].
        split; [apply numbered_snoc; [done | by rewrite Hlen]|].
        split; [done|]. split; [right; eauto|].
        split; [lia|]. split; [lia|]. split; [lia|]. done.
      * exists acc, [], (i + 1), row. rewrite app_nil_r.
        split; [done|]. split; [done|]. split; [lia|]. split; [lia|]. split; [lia|].
        split; [done|]. split; [done|].
        split; [by left|]. split; [lia|]. split; [lia|]. split; [lia|]. done.
    + intros Hrest.
      destruct (loop_body_effect i step acc w _ _ Hlen Hbody)
        as (Hh & Hr & Ht & Hc & new0 & Hcalls0 & o & -> & Ho & Hsucc & Hone & Haudit0).
      assert (Hlen1 : length (acc ++ [o]) = S i) by (rewrite length_app; simpl; lia).
      assert (Hnum1 : numbered (acc ++ [o]))
        by (apply numbered_snoc; [done | by rewrite Hlen]).
      assert (Hok1 : Forall succeeded (acc ++ [o]))
        by (apply Forall_app; split; [done | by constructor]).
      destruct (IH (S i) (acc ++ [o]) w0 Hlen1 Hnum1 Hok1 Hrest)
        as (Hh1 & Hr1 & Ht1 & Hc1 & new1 & Hcalls1 & Hx).
      split; [congruence|]. split; [congruence|].
      split; [destruct Ht as (? & ? & ?), Ht1 as (? & ? & ?);
              unfold same_tables; by repeat split; congruence|].
      split; [by etrans|].
      exists (new0 ++ new1). split; [by rewrite Hcalls1, Hcalls0, app_assoc|].
      rewrite length_app, Hone.
      destruct res as [[r|acc2]|e].
      * destruct Hx as (Hs & He & Htot & good & tail & n & row & Hres & Hn & Hlo1 & Hhi1
                        & Hhi2 & Hnumb & Hgood & Htail & Hlt & Hlo & Hhi & Haudit & Hrow).
        split; [done|]. split; [done|]. split; [done|].
        exists good, tail, n, row.
        split; [done|]. split; [done|]. split; [done|]. split; [done|]. split; [lia|].
        split; [done|]. split; [done|]. split; [done|].
        split; [lia|]. split; [lia|]. split; [lia|]. split; [by rewrite Haudit, Haudit0|].
        done.
      * destruct Hx as (Hl2 & Hn2 & Hok2 & Hnew & Haudit).
        split; [lia|]. split; [done|]. split; [done|]. split; [lia|]. congruence.
      * destruct Hx as (Hnew & Haudit). split; [lia | congruence].
    + intros H; inversion H; subst res w1.
      destruct (loop_body_effect i step acc w _ _ Hlen Hbody)
        as (Hh & Hr & Ht & Hc & new & Hcalls & Hone & Haudit).
      split; [done|]. split; [done|]. split; [done|]. split; [done|].
      exists new. split; [done|]. split; [lia | done].
Qed.



End Loop.

Section ExecuteRuns.
Variables (command_name user_id username : string) (context : option json).

Abbreviation run := (execute_command command_name user_id username context).

(** The ways a run ends, with what the loop did before. *)
Lemma execute_command_inv w res w1 :
  run w = (res, w1) ->
  (Database.get_custom_command command_name (db w) = None
   /\ res = Return {| success := false; steps_executed := None; total_steps := None;
                      results := None;
                      error := Some ("Command " ++ dquote ++ command_name ++ dquote
                                     ++ " not found")%string |}
   /\ w1 = log_action "command_executed" (Some user_id) (Some username)
             (Some (JDict [("command_name", JStr command_name);
                           ("error", JStr "Command not found")])) false w)
  \/ (exists command r,
        Database.get_custom_command command_name (db w) = Some command
        /\ for_loop command_name user_id username context
             (length (Database.cmd_steps command)) 0 (Database.cmd_steps command) [] w
           = (Return (Exit r), w1)
        /\ res = Return r)
  \/ (exists command e,
        Database.get_custom_command command_name (db w) = Some command
        /\ for_loop command_name user_id username context
             (length (Database.cmd_steps command)) 0 (Database.cmd_steps command) [] w
           = (Raise e, w1)
        /\ res = Raise e)
  \/ (exists command acc w0,
        Database.get_custom_command command_name (db w) = Some command
        /\ for_loop command_name user_id username context
             (length (Database.cmd_steps command)) 0 (Database.cmd_steps command) [] w
           = (Return (Next acc), w0)
        /\ ((exists e, results_json acc = Raise e /\ res = Raise (Exception e) /\ w1 = w0)
            \/ (exists js,
                  results_json acc = Return js
                  /\ res = Return {| success := true;
                                     steps_executed := Some (length (Database.cmd_steps command));
                                     total_steps := Some (length (Database.cmd_steps command));
                                     results := Some acc;
                                     error := None |}
                  /\ w1 = log_action "command_executed" (Some user_id) (Some username)
                            (Some (JDict [("command_name", JStr command_name);
                                          ("steps_executed",
                                           JInt (Z.of_nat (length (Database.cmd_steps command))));
                                          ("results", JList js)]))
                            true w0))).
Proof.
  unfold execute_command.
  destruct (Database.get_custom_command command_name (db w)) as [command|].
  2:{ intros H; inversion H; subst. by left. }
  destruct (for_loop command_name user_id username context
              (length (Database.cmd_steps command)) 0 (Database.cmd_steps command) [] w)
    as [[[r|acc]|e] w0] eqn:Hloop.
  - intros H; inversion H; subst. right; left. eauto.
  - destruct (results_json acc) as [js|e] eqn:Hjson; intros H; inversion H; subst;
      right; right; right; exists command, acc; eexists;
      (split; [done|]); (split; [done|]).
    + right. eauto.
    + left. eauto.
  - intros H; inversion H; subst. right; right; left. eauto.
Qed.

(** X18: Every run that returns writes exactly one audit entry, of type
    [command_executed], for the caller, whose success flag is that of the
    returned result.  A run that raises writes none. *)
Theorem execute_command_audits_once (w : World)
    (res : py_exec ExecutionResult) (w1 : World) :
  run w = (res, w1) ->
  match res with
  | Return r =>
      exists row,
        Database.audit_logs (db w1) = Database.audit_logs (db w) ++ [row]
        /\ command_executed_entry user_id username (success r) row
  | Raise _ => Database.audit_logs (db w1) = Database.audit_logs (db w)
  end.
Proof.
  intros Hrun.
  destruct (execute_command_inv w res w1 Hrun)
    as [(_ & -> & ->) | [(command & r & _ & Hloop & ->)
                        | [(command & e & _ & Hloop & ->)
                          | (command & acc & w0 & _ & Hloop & Hend)]]].
  - eexists. split; [reflexivity|]. by repeat split.
  - destruct (for_loop_effect _ _ _ _ _ _ _ _ _ _ _ eq_refl numbered_nil succeeded_nil Hloop)
      as (_ & _ & _ & _ & new & _ & Hs & _ & _ & good & tail & n & row & _ & _ & _ & _ & _
          & _ & _ & _ & _ & _ & _ & Haudit & Hrow).
    exists row. by rewrite Hs.
  - by destruct (for_loop_effect _ _ _ _ _ _ _ _ _ _ _ eq_refl numbered_nil succeeded_nil
                   Hloop) as (_ & _ & _ & _ & new & _ & _ & Haudit).
  - destruct (for_loop_effect _ _ _ _ _ _ _ _ _ _ _ eq_refl numbered_nil succeeded_nil Hloop)
      as (_ & _ & _ & _ & new & _ & _ & _ & _ & _ & Haudit).
    destruct Hend as [(e & _ & -> & ->) | (js & _ & -> & ->)]; [done|].
    eexists. split; [by rewrite log_action_audit, Haudit|]. by repeat split.
Qed.

(** X19: A run never changes the capability, command or permission tables, the
    handler table or the HTTP library; the registry cache can only grow. *)
Theorem execute_command_frame (w : World) (res : py_exec ExecutionResult) (w1 : World) :
  run w = (res, w1) ->
  same_tables (db w) (db w1)
  /\ bot_handlers w1 = bot_handlers w
  /\ requests w1 = requests w
  /\ capabilities_cache w ⊆ capabilities_cache w1.
Proof.
  intros Hrun.
  destruct (execute_command_inv w res w1 Hrun)
    as [(_ & -> & ->) | [(command & r & _ & Hloop & ->)
                        | [(command & e & _ & Hloop & ->)
                          | (command & acc & w0 & _ & Hloop & Hend)]]].
  - by repeat split.
  - by destruct (for_loop_effect _ _ _ _ _ _ _ _ _ _ _ eq_refl numbered_nil succeeded_nil
                   Hloop) as (? & ? & ? & ? & _).
  - by destruct (for_loop_effect _ _ _ _ _ _ _ _ _ _ _ eq_refl numbered_nil succeeded_nil
                   Hloop) as (? & ? & ? & ? & _).
  - destruct (for_loop_effect _ _ _ _ _ _ _ _ _ _ _ eq_refl numbered_nil succeeded_nil Hloop)
      as (Hh & Hr & Ht & Hc & _).
    by destruct Hend as [(e & _ & -> & ->) | (js & _ & -> & ->)].
Qed.

(** X20: A successful run dispatched every step of the command: [steps_executed]
    and [total_steps] are the number of steps, [results] holds one
    successful outcome per step, numbered from 1, there is no [error], and
    the handlers were invoked once per step. *)
Theorem execute_command_success_shape (w : World) (r : ExecutionResult) (w1 : World) :
  run w = (Return r, w1) ->
  success r = true ->
  exists command l new,
    Database.get_custom_command command_name (db w) = Some command
    /\ steps_executed r = Some (length (Database.cmd_steps command))
    /\ total_steps r = Some (length (Database.cmd_steps command))
    /\ results r = Some l
    /\ length l = length (Database.cmd_steps command)
    /\ numbered l /\ Forall succeeded l
    /\ error r = None
    /\ calls w1 = calls w ++ new
    /\ length new = length (Database.cmd_steps command).
Proof.
  intros Hrun Hsuccess.
  destruct (execute_command_inv w _ w1 Hrun)
    as [(_ & Hres & _) | [(command & r0 & _ & Hloop & Hres)
                         | [(command & e & _ & _ & Hres)
                           | (command & acc & w0 & Hcmd & Hloop & Hend)]]].
  - inversion Hres; subst. discriminate.
  - inversion Hres; subst r0.
    destruct (for_loop_effect _ _ _ _ _ _ _ _ _ _ _ eq_refl numbered_nil succeeded_nil Hloop)
      as (_ & _ & _ & _ & new & _ & Hs & _). congruence.
  - discriminate.
  - destruct (for_loop_effect _ _ _ _ _ _ _ _ _ _ _ eq_refl numbered_nil succeeded_nil Hloop)
      as (_ & _ & _ & _ & new & Hcalls & Hlen & Hnum & Hok & Hnew & _).
    destruct Hend as [(e & _ & Hres & _) | (js & _ & Hres & ->)]; [discriminate|].
    inversion Hres; subst r. exists command, acc, new. by repeat split.
Qed.




End ExecuteRuns.

Lemma execute_command_audits_once_witness :
  exists row,
    Database.audit_logs (db (snd deploy_run))
    = Database.audit_logs (db pipeline_world) ++ [row]
    /\ command_executed_entry "42" "ann" (success (returned_result deploy_run)) row.
Proof.
  apply (execute_command_audits_once "deploy" "42" "ann" None pipeline_world
           (Return (returned_result deploy_run)) (snd deploy_run)).
  vm_compute. reflexivity.
Defined.

Lemma execute_command_frame_witness :
  same_tables (db pipeline_world) (db (snd deploy_run))
  /\ bot_handlers (snd deploy_run) = bot_handlers pipeline_world
  /\ requests (snd deploy_run) = requests pipeline_world
  /\ capabilities_cache pipeline_world ⊆ capabilities_cache (snd deploy_run).
Proof.
  apply (execute_command_frame "deploy" "42" "ann" None pipeline_world
           (fst deploy_run) (snd deploy_run)).
  vm_compute. reflexivity.
Defined.

Lemma execute_command_success_shape_witness :
  exists command l new,
    Database.get_custom_command "sync" (db (http_world None)) = Some command
    /\ steps_executed (returned_result sync_run) = Some (length (Database.cmd_steps command))
    /\ total_steps (returned_result sync_run) = Some (length (Database.cmd_steps command))
    /\ results (returned_result sync_run) = Some l
    /\ length l = length (Database.cmd_steps command)
    /\ numbered l /\ Forall succeeded l
    /\ error (returned_result sync_run) = None
    /\ calls (snd sync_run) = calls (http_world None) ++ new
    /\ length new = length (Database.cmd_steps command).
Proof.
  apply (execute_command_success_shape "sync" "42" "ann" None (http_world None)
           (returned_result sync_run) (snd sync_run));
    vm_compute; reflexivity.
Defined.



(** ** Dispatch *)

(** X22: How a dispatch ends.  The step is reported as successful exactly
    when a handler is bound to the bot and its call returns; a failed step
    has an error text and no result.  [_execute_step] raises exactly when
    the handler raised something that is no instance of [Exception], which
    it passes on, or an exception whose [str] raises, in which case what
    [str] raised comes out.  The handler classes of the repository (mock,
    HTTP, WebSocket) never raise, so a step sent to one of them is always
    reported as successful. *)
Theorem _execute_step_outcome (w : World) (bot cap : option string)
    (params : json) (ctx : option json) :
  let res := fst (_execute_step bot cap params ctx w) in
  ((exists sr, res = Return sr /\ sr_success sr = true) <->
   exists name handler value,
     bot = Some name /\ bot_handlers w !! name = Some handler
     /\ BotHandler.invoke handler (requests w) (calls w) cap params ctx = Return value)
  /\ (forall escaped,
        res = Raise escaped <->
        exists name handler e,
          bot = Some name /\ bot_handlers w !! name = Some handler
          /\ BotHandler.invoke handler (requests w) (calls w) cap params ctx = Raise e
          /\ ((is_Exception e = false /\ escaped = e)
              \/ (is_Exception e = true /\ exn_str e = StrRaises escaped)))
  /\ (forall sr, res = Return sr -> sr_success sr = false ->
        is_Some (sr_error sr) /\ sr_result sr = None)
  /\ (forall name handler,
        bot = Some name -> bot_handlers w !! name = Some handler ->
        is_stock_handler handler = true ->
        exists sr, res = Return sr /\ sr_success sr = true).
Proof.
  unfold _execute_step. destruct bot as [name|].
  2:{ simpl. split; [split; [by intros (? & H & ?); inversion H; subst
                            | by intros (? & ? & ? & ? & _)]|].
      split; [intros escaped; split; [done | by intros (? & ? & ? & ? & _)]|].
      split; [|done]. intros sr H _. inversion H; subst. simpl. eauto. }
  destruct (bot_handlers w !! name) as [handler|] eqn:Hhandler.
  2:{ simpl. split.
      { split; [by intros (? & H & ?); inversion H; subst|].
        intros (n & h & v & Hn & Hh & _). inversion Hn; subst n. congruence. }
      split.
      { intros escaped; split; [done|].
        intros (n & h & e & Hn & Hh & _). inversion Hn; subst n. congruence. }
      split; [intros sr H _; inversion H; subst; simpl; eauto|].
      intros n h Hn Hh _. inversion Hn; subst n. congruence. }
  destruct (BotHandler.invoke handler (requests w) (calls w) cap params ctx)
    as [value|e] eqn:Hinvoke.
  - simpl. split; [split; [eauto 6 | eauto]|].
    split.
    { intros escaped; split; [done|].
      intros (n & h & e & Hn & Hh & Hraise & _).
      inversion Hn; subst n. rewrite Hhandler in Hh. inversion Hh; subst h. congruence. }
    split; [intros sr H; inversion H; subst; discriminate|]. eauto.
  - assert (Hstock : is_stock_handler handler = false)
      by (destruct handler; simpl in *; (done || discriminate)).
    unfold caught_str. destruct e as [[|] [message|raised]]; simpl.
    + split.
      { split; [by intros (? & H & ?); inversion H; subst|].
        intros (n & h & v & Hn & Hh & Hret).
        inversion Hn; subst n. rewrite Hhandler in Hh. inversion Hh; subst h. congruence. }
      split.
      { intros escaped; split; [done|].
        intros (n & h & e & Hn & Hh & Hraise & Hcase).
        inversion Hn; subst n. rewrite Hhandler in Hh. inversion Hh; subst h.
        rewrite Hinvoke in Hraise. inversion Hraise; subst e.
        by destruct Hcase as [[? _] | [_ ?]]. }
      split; [intros sr H _; inversion H; subst; simpl; eauto|].
      intros n h Hn Hh Hs. inversion Hn; subst n. rewrite Hhandler in Hh.
      inversion Hh; subst h. congruence.
    + split.
      { split; [by intros (? & H & ?)|].
        intros (n & h & v & Hn & Hh & Hret).
        inversion Hn; subst n. rewrite Hhandler in Hh. inversion Hh; subst h. congruence. }
      split.
      { intros escaped; split.
        - intros H; inversion H; subst escaped.
          exists name, handler, (PyExc true (StrRaises raised)). eauto 6.
        - intros (n & h & e & Hn & Hh & Hraise & Hcase).
          inversion Hn; subst n. rewrite Hhandler in Hh. inversion Hh; subst h.
          rewrite Hinvoke in Hraise. inversion Hraise; subst e.
          destruct Hcase as [[? _] | [_ Hstr]]; [done|]. simpl in Hstr. congruence. }
      split; [by intros sr H|].
      intros n h Hn Hh Hs. inversion Hn; subst n. rewrite Hhandler in Hh.
      inversion Hh; subst h. congruence.
    + split.
      { split; [by intros (? & H & ?)|].
        intros (n & h & v & Hn & Hh & Hret).
        inversion Hn; subst n. rewrite Hhandler in Hh. inversion Hh; subst h. congruence. }
      split.
      { intros escaped; split.
        - intros H; inversion H; subst escaped.
          exists name, handler, (PyExc false (Text message)). eauto 6.
        - intros (n & h & e & Hn & Hh & Hraise & Hcase).
          inversion Hn; subst n. rewrite Hhandler in Hh. inversion Hh; subst h.
          rewrite Hinvoke in Hraise. inversion Hraise; subst e.
          destruct Hcase as [[_ ->] | [? _]]; done. }
      split; [by intros sr H|].
      intros n h Hn Hh Hs. inversion Hn; subst n. rewrite Hhandler in Hh.
      inversion Hh; subst h. congruence.
    + split.
      { split; [by intros (? & H & ?)|].
        intros (n & h & v & Hn & Hh & Hret).
        inversion Hn; subst n. rewrite Hhandler in Hh. inversion Hh; subst h. congruence. }
      split.
      { intros escaped; split.
        - intros H; inversion H; subst escaped.
          exists name, handler, (PyExc false (StrRaises raised)). eauto 6.
        - intros (n & h & e & Hn & Hh & Hraise & Hcase).
          inversion Hn; subst n. rewrite Hhandler in Hh. inversion Hh; subst h.
          rewrite Hinvoke in Hraise. inversion Hraise; subst e.
          destruct Hcase as [[_ ->] | [? _]]; done. }
      split; [by intros sr H|].
      intros n h Hn Hh Hs. inversion Hn; subst n. rewrite Hhandler in Hh.
      inversion Hh; subst h. congruence.
Qed.

(** X23: [register_bot_handler] replaces: once a handler is registered for a
    bot, a step for that bot is answered by it whatever was bound before,
    and steps for every other bot are dispatched as before. *)
Theorem register_bot_handler_replaces (w : World) (name : string) (handler : Handler)
    (cap : option string) (params : json) (ctx : option json) :
  fst (_execute_step (Some name) cap params ctx (register_bot_handler name handler w))
  = match BotHandler.invoke handler (requests w) (calls w) cap params ctx with
    | Return value =>
        Return {| sr_success := true; sr_result := Some value; sr_error := None |}
    | Raise e =>
        match caught_str e with
        | Return message =>
            Return {| sr_success := false; sr_result := None; sr_error := Some message |}
        | Raise escaped => Raise escaped
        end
    end
  /\ forall other, other <> name ->
       fst (_execute_step (Some other) cap params ctx (register_bot_handler name handler w))
       = fst (_execute_step (Some other) cap params ctx w).
Proof.
  split.
  - unfold _execute_step, register_bot_handler; simpl. rewrite lookup_insert_eq.
    destruct (BotHandler.invoke _ _ _ _ _ _) as [value|e]; [done|].
    by destruct (caught_str e).
  - intros other Hother. unfold _execute_step, register_bot_handler; simpl.
    rewrite lookup_insert_ne by done.
    destruct (bot_handlers w !! other); [|done].
    destruct (BotHandler.invoke _ _ _ _ _ _) as [value|e]; [done|].
    by destruct (caught_str e).
Qed.

(** ** Direct steps *)


Section SingleStep.
Variables (command_name user_id username : string) (context : option json).


End SingleStep.


(** ** Saved commands *)

Section SavedCommands.
Variables (command_name user_id username : string) (context : option json).

(** X26: A command that [save_custom_command] accepted is found by
    [execute_command]: whatever the run returns reports the number of steps
    that were saved as [total_steps].  When the saved step list is empty the
    run succeeds at once, with no step executed and no handler invoked. *)
Theorem saved_command_is_executed (w : World) (description : option string)
    (steps : list Step) (created_by : string) :
  fst (Database.save_custom_command command_name description steps created_by (db w)) = true ->
  let w0 := set_db (snd (Database.save_custom_command command_name description steps
                           created_by (db w))) w in
  (forall r w1,
      execute_command command_name user_id username context w0 = (Return r, w1) ->
      total_steps r = Some (length steps))
  /\ (steps = [] ->
      exists w1,
        execute_command command_name user_id username context w0
        = (Return {| success := true;
                     steps_executed := Some 0;
                     total_steps := Some 0;
                     results := Some [];
                     error := None |}, w1)
        /\ calls w1 = calls w).
Proof.
  intros Hsaved w0.
  destruct (save_custom_command_lookup command_name description steps created_by (db w)
              Hsaved) as (row & Hget & Hsteps).
  assert (Hcmd : Database.get_custom_command command_name (db w0) = Some row) by done.
  split.
  - intros r w1 Hrun.
    destruct (execute_command_inv command_name user_id username context w0 _ w1 Hrun)
      as [(Hnone & _) | [(command & r0 & Hcmd' & Hloop & Hres)
                        | [(command & e & _ & _ & Hres)
                          | (command & acc & w2 & Hcmd' & _ & Hend)]]].
    + congruence.
    + inversion Hres; subst r0.
      destruct (for_loop_effect _ _ _ _ _ _ _ _ _ _ _ eq_refl numbered_nil succeeded_nil
                  Hloop) as (_ & _ & _ & _ & new & _ & _ & _ & Htot & _).
      rewrite Htot. congruence.
    + discriminate.
    + destruct Hend as [(e & _ & Hres & _) | (js & _ & Hres & _)]; [discriminate|].
      inversion Hres; subst r. simpl. congruence.
  - intros ->. unfold execute_command. rewrite Hcmd, Hsteps. simpl. eauto.
Qed.

End SavedCommands.

Lemma saved_command_is_executed_witness :
  exists w1,
    execute_command "noop" "42" "ann" None
      (set_db (snd (Database.save_custom_command "noop" (Some "") [] "admin"
                      (db pipeline_world)))
         pipeline_world)
    = (Return {| success := true;
                 steps_executed := Some 0;
                 total_steps := Some 0;
                 results := Some [];
                 error := None |}, w1)
    /\ calls w1 = calls pipeline_world.
Proof.
  destruct (saved_command_is_executed "noop" "42" "ann" None pipeline_world (Some "") []
              "admin")
    as [_ Hempty]; [vm_compute; reflexivity|].
  by apply Hempty.
Defined.

(** ** The HTTP handler *)

Lemma rstrip_slash_app_slash (s : string) :
  BotHandler.rstrip_slash (s ++ "/")%string = BotHandler.rstrip_slash s.
Proof.
  induction s as [|c s IH]; simpl; [done|]. by rewrite IH.
Qed.

(** X27: A trailing slash in [base_url] makes no difference to the handler: the
    request goes to the same URL and the same dictionary comes back. *)
Theorem http_base_url_trailing_slash (net : option Requests) (history : list Call)
    (bot_name base_url : string) (api_key : option string) (timeout : Z)
    (cap : option string) (params : json) (ctx : option json) :
  BotHandler.http_execute_capability net history bot_name (base_url ++ "/")%string
    api_key timeout cap params ctx
  = BotHandler.http_execute_capability net history bot_name base_url
      api_key timeout cap params ctx.
Proof.
  unfold BotHandler.http_execute_capability. by rewrite rstrip_slash_app_slash.
Qed.

End Runs.
